(** * GooGet: client state, repository index and state database

    A shallow embedding of the parts of GooGet that select package
    versions ([client.FindRepoLatest]), match installed packages
    ([client.PackageState.Match]), decode and fetch repository indexes
    ([index.decode], [index.unmarshalRepoPackages], both of package
    client), persist the installed-package table ([googetdb]) and run
    verify commands ([verify.RunVerifyCommand]).

    Go strings are [string], Go [int] values are [Z], Go maps are
    [gmap]s, pointers that the code may find nil are [option]s, and a
    nil-pointer dereference is the outcome [Panic].  Everything the code
    obtains from outside the process (files, HTTP, the SQL engine, the
    clock, scripts) is an explicit environment argument. *)

From Stdlib Require Import ZArith Bool List String Ascii Permutation Lia.
From stdpp Require Import base option list strings gmap fin_maps.

Local Open Scope string_scope.
Local Open Scope list_scope.

(** Go's [error] values are carried as their message. *)
Definition error := string.

(** The outcome of running Go code that may dereference a nil pointer or
    call [logger.Fatal]. *)
Inductive go (A : Type) : Type :=
| Ret (a : A)
| Panic
| Fatal (e : error).
Arguments Ret {A} a.
Arguments Panic {A}.
Arguments Fatal {A} e.

(** A computation that acts on the world: the events it performed, in
    order, and how it ended. *)
Definition io (E A : Type) : Type := list E * go A.

Definition io_ret {E A : Type} (a : A) : io E A := ([], Ret a).

Definition io_bind {E A B : Type} (m : io E A) (k : A -> io E B) : io E B :=
  match m with
  | (t, Ret a) => let '(t', r) := k a in (t ++ t', r)
  | (t, Panic) => (t, Panic)
  | (t, Fatal e) => (t, Fatal e)
  end.

Definition emit {E : Type} (e : E) : io E unit := ([e], Ret tt).

Definition fatal {E A : Type} (e : error) : io E A := ([], Fatal e).

Declare Scope io_scope.
Delimit Scope io_scope with io.
Notation "x <- m ;; k" := (io_bind m (fun x => k))
  (at level 100, m at next level, right associativity) : io_scope.
Notation "m ;;; k" := (io_bind m (fun _ => k))
  (at level 100, right associativity) : io_scope.

(** ** Package goolib: the data declarations used by the client *)

Module goolib.

(** Modelled from the spec: the declaration of [goolib.ExecFile] is not
    among the sources; the functions below read its [Path]. *)
Module ExecFile.
Record t : Type := mk { Path : string }.
End ExecFile.

(** Modelled from the spec: the declaration of [goolib.PkgSpec] is not
    among the sources.  The spec lists name, arch, version, authors,
    install and verify commands; these are the fields the functions
    below read. *)
Module PkgSpec.
Record t : Type := mk {
  Name : string;
  Version : string;
  Arch : string;
  Authors : string;
  Install : ExecFile.t;
  Verify : ExecFile.t
}.
End PkgSpec.

(** Modelled from the spec: [goolib.PackageInfo] is (name, arch,
    version). *)
Module PackageInfo.
Record t : Type := mk { Name : string; Arch : string; Ver : string }.
End PackageInfo.

(** Modelled from the spec: a [goolib.RepoSpec] is a source path, a
    checksum and a pointer to a package spec. *)
Module RepoSpec.
Record t : Type := mk {
  Checksum : string;
  Source : string;
  PackageSpec : option PkgSpec.t
}.
Definition zero : t := mk "" "" None.
End RepoSpec.

(** Modelled from the spec: [goolib.SplitGCSUrl] is not among the
    sources; per the spec the scheme [gs://] selects object storage.
    The remainder is split at the first slash into bucket and
    object. *)
Fixpoint split_slash (s : string) : string * string :=
  match s with
  | EmptyString => ("", "")
  | String c s' =>
      if Ascii.eqb c "/"%char then ("", s')
      else let '(b, o) := split_slash s' in (String c b, o)
  end.

Definition SplitGCSUrl (p : string) : bool * string * string :=
  if String.prefix "gs://" p
  then let '(b, o) := split_slash (String.substring 5 (String.length p - 5) p) in
       (true, b, o)
  else (false, "", "").

End goolib.

(** ** Package client *)

Module client.
Import goolib.

(** [PackageState] as declared in the client, with the two fields
    ([InstalledApp], [InstallDate]) that [googetdb.addPkg] assigns. *)
Module InstalledApp.
Record t : Type := mk { Name : string; Reg : string }.
End InstalledApp.

Module PackageState.
Record t : Type := mk {
  SourceRepo : string;
  DownloadURL : string;
  Checksum : string;
  LocalPath : string;
  UnpackDir : string;
  PackageSpec : option PkgSpec.t;
  InstalledFiles : option (gmap string string);
  InstalledApp : InstalledApp.t;
  InstallDate : Z
}.

(** The zero value [PackageState{}]. *)
Definition zero : t :=
  mk "" "" "" "" "" None None (InstalledApp.mk "" "") 0.

(** [func (ps *PackageState) Match(pi goolib.PackageInfo) bool] *)
Definition Match (ps : t) (pi : PackageInfo.t) : go bool :=
  match PackageSpec ps with
  | None => Panic
  | Some spec =>
      Ret ((PkgSpec.Name spec =? PackageInfo.Name pi)
           && ((PkgSpec.Arch spec =? PackageInfo.Arch pi)
               || (PackageInfo.Arch pi =? ""))
           && ((PkgSpec.Version spec =? PackageInfo.Ver pi)
               || (PackageInfo.Ver pi =? "")))
  end.
End PackageState.

(** [type RepoMap map[string][]goolib.RepoSpec]: repo URL to the
    entries of its index.  The type has no priority component. *)
Abbreviation RepoMap := (gmap string (list RepoSpec.t)).

(** The map [psm] of [FindRepoLatest]: repo URL to the candidate
    specs collected from it. *)
Abbreviation PkgSpecMap := (gmap string (list PkgSpec.t)).

Section FindRepoLatest.
(** [goolib.Compare] is not among the sources; it is a parameter.
    It returns -1, 0 or 1 and an error. *)
Variable Compare : string -> string -> Z * option error.

(** Go iterates over a map in an order the runtime chooses anew for
    every [range] statement.  [range m] is the sequence of entries
    the runtime delivers for [psm]; the only thing known about it is
    that it is a permutation of the entries. *)
Variable range : PkgSpecMap -> list (string * list PkgSpec.t).

(** One turn of the inner loop of [latest]. *)
Definition latest_step (r : string) (acc : string * string) (p : PkgSpec.t)
  : string * string :=
  let '(ver, repo) := acc in
  if ver =? "" then (PkgSpec.Version p, r)
  else
    let '(c, err) := Compare (PkgSpec.Version p) ver in
    if (c =? 1)%Z then (PkgSpec.Version p, r) else (ver, repo).

(** [func latest(psm map[string][]*goolib.PkgSpec) (ver, repo string)],
    on the sequence of entries that [range psm] yields. *)
Definition latest (entries : list (string * list PkgSpec.t)) : string * string :=
  fold_left (fun acc e => fold_left (latest_step (fst e)) (snd e) acc)
            entries ("", "").

(** [p.PackageSpec.Name == name && p.PackageSpec.Arch == arch] for
    the entries whose pointer is not nil. *)
Definition matching (name arch : string) (p : RepoSpec.t) : option PkgSpec.t :=
  match RepoSpec.PackageSpec p with
  | Some s =>
      if (PkgSpec.Name s =? name) && (PkgSpec.Arch s =? arch)
      then Some s else None
  | None => None
  end.

(** The two nested loops that fill [psm]: for every repo [r] the
    matching specs of [rm[r]] are appended, in slice order, to
    [psm[r]]; a repo without a match gets no key. *)
Definition collect (name arch : string) (rm : RepoMap) : PkgSpecMap :=
  omap (fun pl => match omap (matching name arch) pl with
                  | [] => None
                  | l => Some l
                  end) rm.

Definition gather (psm : PkgSpecMap) (name arch : string) (rm : RepoMap)
  : PkgSpecMap :=
  union_with (fun old new => Some (old ++ new)) psm (collect name arch rm).

(** The loops dereference [p.PackageSpec] of every entry of every
    repo; a nil pointer anywhere makes them panic. *)
Definition has_spec (p : RepoSpec.t) : bool :=
  match RepoSpec.PackageSpec p with Some _ => true | None => false end.

Definition derefs_ok (rm : RepoMap) : bool :=
  bool_decide (map_Forall (fun _ pl => Forall (fun p => has_spec p = true) pl) rm).

Definition len (psm : PkgSpecMap) : nat := size psm.

(** The loop [for _, a := range archs] of [FindRepoLatest]; [psm] is
    the map as the previous turns left it. *)
Fixpoint archs_loop (name : string) (rm : RepoMap) (psm : PkgSpecMap)
         (archs : list string) : go (string * string * string * option error) :=
  match archs with
  | [] =>
      Ret ("", "", "",
           Some ("no versions of package " +:+ name +:+ " found in any repo"))
  | a :: archs' =>
      if derefs_ok rm then
        let psm' := gather psm name a rm in
        if negb (len psm' =? 0)%nat then
          let '(v, r) := latest (range psm') in Ret (v, r, a, None)
        else archs_loop name rm psm' archs'
      else Panic
  end.

(** [func FindRepoLatest(pi goolib.PackageInfo, rm RepoMap, archs []string)
     (ver, repo, arch string, err error)] *)
Definition FindRepoLatest (pi : PackageInfo.t) (rm : RepoMap) (archs : list string)
  : go (string * string * string * option error) :=
  let psm : PkgSpecMap := ∅ in
  if negb (PackageInfo.Arch pi =? "") then
    if derefs_ok rm then
      let psm' := gather psm (PackageInfo.Name pi) (PackageInfo.Arch pi) rm in
      if negb (len psm' =? 0)%nat then
        let '(v, r) := latest (range psm') in
        Ret (v, r, PackageInfo.Arch pi, None)
      else
        Ret ("", "", "",
             Some ("no versions of package " +:+ PackageInfo.Name pi +:+ "."
                   +:+ PackageInfo.Arch pi +:+ " found in any repo"))
    else Panic
  else archs_loop (PackageInfo.Name pi) rm psm archs.
End FindRepoLatest.

(** A comparison for versions that are one decimal number ("1", "2",
    "10"), on which the functions are run below.  A string that is not
    a number yields 0 and an error, as a failed parse does. *)
Fixpoint digits (s : string) (acc : N) : option N :=
  match s with
  | EmptyString => Some acc
  | String c s' =>
      let n := N_of_ascii c in
      if ((48 <=? n) && (n <=? 57))%N then digits s' (acc * 10 + (n - 48))%N
      else None
  end.

Definition parseNum (s : string) : option N :=
  match s with
  | EmptyString => None
  | _ => digits s 0%N
  end.

Definition numCompare (a b : string) : Z * option error :=
  match parseNum a, parseNum b with
  | Some x, Some y =>
      match N.compare x y with
      | Lt => ((-1)%Z, None)
      | Eq => (0%Z, None)
      | Gt => (1%Z, None)
      end
  | _, _ => (0%Z, Some "invalid version")
  end.

(** *** Vocabulary for the properties of [FindRepoLatest] *)

(** [higher a b]: [Compare a b] reports 1, the only outcome on which
    [latest] replaces its current choice. *)
Definition higher (Compare : string -> string -> Z * option error)
           (a b : string) : Prop :=
  fst (Compare a b) = 1%Z.

(** The (repo, spec) pairs in the order in which the two loops of
    [latest] visit them. *)
Definition flat (entries : list (string * list PkgSpec.t))
  : list (string * PkgSpec.t) :=
  entries ≫= (fun e => pair (fst e) <$> snd e).

Definition flat_step (Compare : string -> string -> Z * option error)
           (acc : string * string) (rp : string * PkgSpec.t) : string * string :=
  latest_step Compare (fst rp) acc (snd rp).

(** [candidate rm name arch r s]: repo [r] of [rm] lists the spec [s],
    whose name and arch are the requested ones. *)
Definition candidate (rm : gmap string (list RepoSpec.t)) (name arch r : string)
           (s : PkgSpec.t) : Prop :=
  exists pl p,
    rm !! r = Some pl /\ p ∈ pl /\ RepoSpec.PackageSpec p = Some s
    /\ PkgSpec.Name s = name /\ PkgSpec.Arch s = arch.

(** Every entry of every repo has a spec with a non-empty version. *)
Definition has_version (p : RepoSpec.t) : bool :=
  match RepoSpec.PackageSpec p with
  | Some s => negb (PkgSpec.Version s =? "")
  | None => false
  end.

Definition versioned (rm : gmap string (list RepoSpec.t)) : Prop :=
  map_Forall (fun _ pl => Forall (fun p => has_version p = true) pl) rm.

End client.

(** ** Package client: fetching and decoding a repo index *)

Module index.
Import goolib client.

(** Go's [[]byte]. *)
Definition bytes := string.

(** *** The JSON values that [encoding/json] decodes into a RepoSpec

    A member that is absent from an object, or [null] for a string
    member, leaves the Go field as it is; this matters because [Decode]
    is called on a variable that already holds a value. *)
Record JPkgSpec : Type := mkJPkgSpec {
  jName : option string;
  jVersion : option string;
  jArch : option string;
  jAuthors : option string;
  jInstallPath : option string;
  jVerifyPath : option string
}.

Inductive JPtr : Type :=
| JAbsent
| JNull
| JObject (o : JPkgSpec).

Record JRepoSpec : Type := mkJRepoSpec {
  jChecksum : option string;
  jSource : option string;
  jPackageSpec : JPtr
}.

(** A top-level value of the stream: [null] or an array whose elements
    are objects or [null]. *)
Inductive JTop : Type :=
| JTopNull
| JTopArray (elems : list (option JRepoSpec)).

Definition PkgSpec_zero : PkgSpec.t :=
  PkgSpec.mk "" "" "" "" (ExecFile.mk "") (ExecFile.mk "").

Definition unmarshalPkgSpec (old : PkgSpec.t) (j : JPkgSpec) : PkgSpec.t :=
  PkgSpec.mk
    (default (PkgSpec.Name old) (jName j))
    (default (PkgSpec.Version old) (jVersion j))
    (default (PkgSpec.Arch old) (jArch j))
    (default (PkgSpec.Authors old) (jAuthors j))
    (ExecFile.mk (default (ExecFile.Path (PkgSpec.Install old)) (jInstallPath j)))
    (ExecFile.mk (default (ExecFile.Path (PkgSpec.Verify old)) (jVerifyPath j))).

(** Decoding one array element into the Go value [old] that the slot
    holds. *)
Definition unmarshalRepoSpec (old : RepoSpec.t) (j : option JRepoSpec) : RepoSpec.t :=
  match j with
  | None => old
  | Some o =>
      RepoSpec.mk
        (default (RepoSpec.Checksum old) (jChecksum o))
        (default (RepoSpec.Source old) (jSource o))
        (match jPackageSpec o with
         | JAbsent => RepoSpec.PackageSpec old
         | JNull => None
         | JObject ps =>
             Some (unmarshalPkgSpec
                     (default PkgSpec_zero (RepoSpec.PackageSpec old)) ps)
         end)
  end.

(** A Go slice [m]: the slots of its backing array that were ever
    written (slots beyond them are zero) and its length. *)
Record slice : Type := mkSlice { slots : list RepoSpec.t; slen : nat }.

Definition nil_slice : slice := mkSlice [] 0.

(** The elements of the slice. *)
Definition elems (m : slice) : list RepoSpec.t := take (slen m) (slots m).

Section Decode.
(** How [encoding/json] fills a slice that already holds elements:
    [true], as its implementation does, it decodes element [i] into
    the value that slot [i] of the backing array holds, so that
    members the JSON object does not set keep what an earlier
    [Decode] left there; [false], as its documentation puts it ("resets
    the slice length to zero and then appends each element"), into a
    zero value. *)
Variable reuse : bool.

(** Element [i] of the array is decoded into slot [i]. *)
Fixpoint decode_array (slots : list RepoSpec.t) (arr : list (option JRepoSpec))
  : list RepoSpec.t :=
  match arr with
  | [] => slots
  | j :: arr' =>
      match slots with
      | [] => unmarshalRepoSpec RepoSpec.zero j :: decode_array [] arr'
      | o :: slots' => unmarshalRepoSpec o j :: decode_array slots' arr'
      end
  end.

(** [dec.Decode(&m)] for a value of the stream: [null] sets [m] to
    nil; an empty array sets it to a new empty slice; an array of
    [n > 0] elements decodes element [i] into slot [i] and sets the
    length to [n].  Nothing is appended to what [m] held. *)
Definition Decode (m : slice) (v : JTop) : slice :=
  match v with
  | JTopNull => nil_slice
  | JTopArray [] => nil_slice
  | JTopArray arr =>
      let backing := if reuse then slots m else [] in
      mkSlice (decode_array backing arr) (length arr)
  end.

(** [for dec.More() { if err := dec.Decode(&m); err != nil { return nil, err } }]
    on the values that the decoder finds in its input, each either a
    value or the error that [Decode] reports for it. *)
Fixpoint decode_loop (m : slice) (values : list (error + JTop)) : error + slice :=
  match values with
  | [] => inr m
  | inl e :: _ => inl e
  | inr v :: rest => decode_loop (Decode m v) rest
  end.
End Decode.

(** *** The world outside the process *)

Inductive reader : Type :=
| BytesReader (b : bytes)
| GzipReader (b : bytes)
| FileReader (path : string).

Inductive StatResult : Type :=
| StatOk (since : Z)        (* [time.Since(fi.ModTime())] *)
| StatNotExist (e : error)  (* an error with [os.IsNotExist(err)] *)
| StatError (e : error).

Module Response.
Record t : Type := mk { StatusCode : Z; Status : string; Body : bytes }.
End Response.

Record World : Type := mkWorld {
  json_reuse : bool;
  DetectContentType : bytes -> string;
  gzip_NewReader : bytes -> option error;
  json_values : reader -> list (error + JTop);
  filepath_Base : string -> string;
  filepath_Join : string -> string -> string;
  Stat : string -> StatResult;
  Open : string -> option error;
  Create : string -> option error;
  Write : string -> option error;
  Close : string -> option error;
  url_Parse : string -> option error;
  http_Get : string -> string -> error + Response.t;
  storage_NewClient : option error;
  (** [bkt.Object(path).NewReader(ctx)] followed by [ioutil.ReadAll]:
      the error of [NewReader], or the error or bytes of [ReadAll]. *)
  gcs_read : string -> string -> error + (error + bytes)
}.

(** What a call does to the world, in order. *)
Inductive event : Type :=
| EvGet (proxy url : string)
| EvObject (bucket object : string)
| EvCreate (path : string)
| EvWrite (path : string) (m : list RepoSpec.t)
| EvClose (path : string)
| EvOpen (path : string).

(** [regexp.MustCompile("; .*$").ReplaceAllString(s, "")]: the text
    from the first "; " on is removed (a content type has no line
    break). *)
Fixpoint strip_params (s : string) : string :=
  match s with
  | EmptyString => EmptyString
  | String c s' =>
      if String.prefix "; " s then EmptyString else String c (strip_params s')
  end.

(** The result type [([]goolib.RepoSpec, error)]; a nil slice is the
    empty list. *)
Definition result : Type := list RepoSpec.t * option error.

Section Fetch.
Variable w : World.

(** [goolib.SplitGCSUrl] is not among the sources; it is a
    parameter.  It reports whether the URL names object storage, and
    the bucket and object. *)
Variable SplitGCSUrl : string -> bool * string * string.
Local Open Scope io_scope.

(** The [switch ct] of [decode]: the reader that the JSON decoder is
    built on, or the error returned. *)
Definition newDecoder (index : bytes) : error + reader :=
  let ctFull := DetectContentType w index in
  let ct := strip_params ctFull in
  if (ct =? "application/gzip") || (ct =? "application/x-gzip") then
    match gzip_NewReader w index with
    | Some err => inl err
    | None => inr (GzipReader index)
    end
  else if (ct =? "application/json") || (ct =? "text/plain") then
    inr (BytesReader index)
  else inl ("unsupported content type: " +:+ ct).

(** [func decode(index []byte, cf string) ([]goolib.RepoSpec, error)] *)
Definition decode (index : bytes) (cf : string) : io event result :=
  match newDecoder index with
  | inl err => io_ret ([], Some err)
  | inr rd =>
      match decode_loop (json_reuse w) nil_slice (json_values w rd) with
      | inl err => io_ret ([], Some err)
      | inr m =>
          emit (EvCreate cf) ;;;
          match Create w cf with
          | Some err => io_ret ([], Some err)
          | None =>
              emit (EvWrite cf (elems m)) ;;;
              match Write w cf with
              | Some err => io_ret ([], Some err)
              | None =>
                  emit (EvClose cf) ;;;
                  io_ret (elems m, Close w cf)
              end
          end
      end
  end.

(** [func unmarshalRepoPackagesHTTP(repoURL string, cf string, proxyServer string)] *)
Definition unmarshalRepoPackagesHTTP (repoURL cf proxyServer : string) : io event result :=
  (if negb (proxyServer =? "") then
     match url_Parse w proxyServer with
     | Some err => fatal err
     | None => io_ret tt
     end
   else io_ret tt) ;;;
  let indexURL := repoURL +:+ "/index.gz" in
  emit (EvGet proxyServer indexURL) ;;;
  match http_Get w proxyServer indexURL with
  | inl err => io_ret ([], Some err)
  | inr res =>
      if negb (Response.StatusCode res =? 200)%Z then
        let indexURL := repoURL +:+ "/index" in
        emit (EvGet proxyServer indexURL) ;;;
        match http_Get w proxyServer indexURL with
        | inl err => io_ret ([], Some err)
        | inr res =>
            if negb (Response.StatusCode res =? 200)%Z then
              io_ret ([], Some ("index GET request returned status: "
                                +:+ Response.Status res))
            else decode (Response.Body res) cf
        end
      else decode (Response.Body res) cf
  end.

(** [func unmarshalRepoPackagesGCS(bucket, object string, cf string, proxyServer string)] *)
Definition unmarshalRepoPackagesGCS (bucket object cf proxyServer : string)
  : io event result :=
  if negb (proxyServer =? "") then io_ret ([], None)
  else
    match storage_NewClient w with
    | Some err => io_ret ([], Some err)
    | None =>
        let object := if negb (String.length object =? 0)%nat
                      then object +:+ "/" else object in
        let indexPath := object +:+ "index" in
        let indexPath_gz := indexPath +:+ ".gz" in
        emit (EvObject bucket indexPath_gz) ;;;
        let index : option bytes :=
          match gcs_read w bucket indexPath_gz with
          | inr (inr b) => Some b
          | _ => None
          end in
        match index with
        | Some b => decode b cf
        | None =>
            let eStr := "Failed to read gs://" +:+ bucket +:+ "/" +:+ indexPath
                        +:+ " and gs://" +:+ bucket +:+ "/" +:+ indexPath_gz in
            emit (EvObject bucket indexPath) ;;;
            match gcs_read w bucket indexPath with
            | inl err => io_ret ([], Some (eStr +:+ ": " +:+ err))
            | inr (inl err) => io_ret ([], Some (eStr +:+ ": " +:+ err))
            | inr (inr b) => decode b cf
            end
        end
    end.

(** [func unmarshalRepoPackages(p, cacheDir string, cacheLife time.Duration, proxyServer string)] *)
Definition unmarshalRepoPackages (p cacheDir : string) (cacheLife : Z)
           (proxyServer : string) : io event result :=
  let cf := filepath_Join w cacheDir (filepath_Base w p +:+ ".rs") in
  let fresh := match Stat w cf with
               | StatOk since => (since <? cacheLife)%Z
               | _ => false
               end in
  if fresh then
    emit (EvOpen cf) ;;;
    match Open w cf with
    | Some err => io_ret ([], Some err)
    | None =>
        match decode_loop (json_reuse w) nil_slice (json_values w (FileReader cf)) with
        | inl err => io_ret ([], Some err)
        | inr m => io_ret (elems m, None)
        end
    end
  else
    match Stat w cf with
    | StatError err => io_ret ([], Some err)
    | _ =>
        let '(isGCSURL, bucket, object) := SplitGCSUrl p in
        if isGCSURL then unmarshalRepoPackagesGCS bucket object cf proxyServer
        else unmarshalRepoPackagesHTTP p cf proxyServer
    end.

(** The cache file is absent, or present and no longer fresh. *)
Definition cache_stale_or_absent (p cacheDir : string) (cacheLife : Z) : bool :=
  match Stat w (filepath_Join w cacheDir (filepath_Base w p +:+ ".rs")) with
  | StatOk since => negb (since <? cacheLife)%Z
  | StatNotExist _ => true
  | StatError _ => false
  end.

(** The proxy setting does not stop the process: it is empty or
    [url.Parse] accepts it. *)
Definition proxy_ok (proxyServer : string) : bool :=
  (proxyServer =? "")
  || match url_Parse w proxyServer with None => true | Some _ => false end.

(** The request for [r/index.gz] completed with a status other than
    200. *)
Definition gz_not_200 (proxyServer r : string) : bool :=
  match http_Get w proxyServer (r +:+ "/index.gz") with
  | inr res => negb (Response.StatusCode res =? 200)%Z
  | inl _ => false
  end.

(** The request for [r/index] completed with a status other than
    200. *)
Definition plain_not_200 (proxyServer r : string) : bool :=
  match http_Get w proxyServer (r +:+ "/index") with
  | inr res => negb (Response.StatusCode res =? 200)%Z
  | inl _ => false
  end.
End Fetch.

(** The URLs requested over HTTP, in order. *)
Definition gets (t : list event) : list string :=
  omap (fun e => match e with EvGet _ url => Some url | _ => None end) t.

(** The arrays of a payload, each decoded on its own, one after the
    other: the result that appending would give. *)
Definition concat_arrays (arrs : list (list (option JRepoSpec))) : list RepoSpec.t :=
  arrs ≫= fmap (unmarshalRepoSpec RepoSpec.zero).
End index.

(** ** Package googetdb: the InstalledPackages table *)

Module googetdb.
Import goolib client.

(** *** The JSON text of a PackageState

    [PkgJson] holds the text that [json.Marshal] produced.  What
    matters of it is which members it sets when it is decoded into a
    Go value that already holds a state. *)
Inductive JMap : Type :=
| JMapAbsent
| JMapNull
| JMapObject (m : gmap string string).

Record JPackageState : Type := mkJPackageState {
  jSourceRepo : option string;
  jDownloadURL : option string;
  jChecksum : option string;
  jLocalPath : option string;
  jUnpackDir : option string;
  jPackageSpec : index.JPtr;
  jInstalledFiles : JMap;
  jInstalledAppName : option string;
  jInstalledAppReg : option string;
  jInstallDate : option Z
}.

Inductive blob : Type :=
| Invalid                      (* not the JSON text of an object *)
| Object (o : JPackageState).

(** [json.Unmarshal([]byte(jsonState), &pkgState)]: members that the
    text sets overwrite the fields; a map member is decoded into the
    map that is already there, keeping its other entries; an object
    for [PackageSpec] is decoded into the spec already pointed to.  A
    text that is not valid JSON changes nothing. *)
Definition Unmarshal (b : blob) (st : PackageState.t) : PackageState.t * option error :=
  match b with
  | Invalid => (st, Some "invalid character")
  | Object o =>
      (PackageState.mk
         (default (PackageState.SourceRepo st) (jSourceRepo o))
         (default (PackageState.DownloadURL st) (jDownloadURL o))
         (default (PackageState.Checksum st) (jChecksum o))
         (default (PackageState.LocalPath st) (jLocalPath o))
         (default (PackageState.UnpackDir st) (jUnpackDir o))
         (match jPackageSpec o with
          | index.JAbsent => PackageState.PackageSpec st
          | index.JNull => None
          | index.JObject ps =>
              Some (index.unmarshalPkgSpec
                      (default index.PkgSpec_zero (PackageState.PackageSpec st)) ps)
          end)
         (match jInstalledFiles o with
          | JMapAbsent => PackageState.InstalledFiles st
          | JMapNull => None
          | JMapObject m =>
              Some (m ∪ default ∅ (PackageState.InstalledFiles st))
          end)
         (InstalledApp.mk
            (default (InstalledApp.Name (PackageState.InstalledApp st))
                     (jInstalledAppName o))
            (default (InstalledApp.Reg (PackageState.InstalledApp st))
                     (jInstalledAppReg o)))
         (default (PackageState.InstallDate st) (jInstallDate o)),
       None)
  end.

(** *** The table *)

Module Row.
Record t : Type := mk {
  id : Z;
  PkgName : string;
  PkgArch : string;
  PkgVer : string;
  PkgJson : blob
}.
End Row.

(** The committed contents of the database file: the rows of
    InstalledPackages in the order of their ids, and the largest id
    ever handed out (AUTOINCREMENT). *)
Record Table : Type := mkTable { rows : list Row.t; seq : Z }.

Definition same_key (name arch : string) (r : Row.t) : bool :=
  (Row.PkgName r =? name) && (Row.PkgArch r =? arch).

(** [INSERT or REPLACE INTO InstalledPackages (PkgName, PkgVer, PkgArch, PkgJson)
     VALUES (?, ?, ?, ?)] under [UNIQUE(PkgName, PkgArch) ON CONFLICT REPLACE]:
    the row with the same name and arch is deleted and the new row
    gets the next id. *)
Definition insert_or_replace (t : Table) (name ver arch : string) (json : blob) : Table :=
  let id := (seq t + 1)%Z in
  mkTable (filter (fun r => same_key name arch r = false) (rows t)
           ++ [Row.mk id name arch ver json])
          id.

(** [DELETE FROM InstalledPackages where PkgName = 'name' and PkgArch = 'arch'] *)
Definition delete_where (t : Table) (name arch : string) : Table :=
  mkTable (filter (fun r => same_key name arch r = false) (rows t)) (seq t).

(** *** Writing *)

(** What can go wrong in one call of [addPkg]. *)
Inductive fault : Type :=
| NoFault
| BeginFails (e : error)
| MarshalFails (e : error)
| ExecFails (e : error)
| CommitFails (e : error).

(** What one call of [addPkg] finds outside the process: the answer of
    [system.AppAssociation], the clock, and the fault, if any. *)
Record Env : Type := mkEnv {
  appAssociation : string * string;
  now : Z;
  failure : fault
}.

Section Write.
(** The declaration of [goolib.PkgSpec], and with it the JSON text of
    a spec, is not among the sources; it is a parameter. *)
Variable marshalPkgSpec : PkgSpec.t -> index.JPkgSpec.

(** [json.Marshal(pkgState)]: the fields of [PackageState] carry no
    tags, so every member is written. *)
Definition Marshal (ps : PackageState.t) : JPackageState :=
  mkJPackageState
    (Some (PackageState.SourceRepo ps))
    (Some (PackageState.DownloadURL ps))
    (Some (PackageState.Checksum ps))
    (Some (PackageState.LocalPath ps))
    (Some (PackageState.UnpackDir ps))
    (match PackageState.PackageSpec ps with
     | None => index.JNull
     | Some s => index.JObject (marshalPkgSpec s)
     end)
    (match PackageState.InstalledFiles ps with
     | None => JMapNull
     | Some m => JMapObject m
     end)
    (Some (InstalledApp.Name (PackageState.InstalledApp ps)))
    (Some (InstalledApp.Reg (PackageState.InstalledApp ps)))
    (Some (PackageState.InstallDate ps)).

(** [func (g *gooDB) addPkg(pkgState client.PackageState) error].  A
    transaction works on a copy of the table; only [tx.Commit]
    makes the copy the contents of the database. *)
Definition addPkg (env : Env) (db : Table) (pkgState : PackageState.t)
  : go (Table * option error) :=
  match PackageState.PackageSpec pkgState with
  | None => Panic
  | Some spec =>
      let pkgState :=
        PackageState.mk
          (PackageState.SourceRepo pkgState) (PackageState.DownloadURL pkgState)
          (PackageState.Checksum pkgState) (PackageState.LocalPath pkgState)
          (PackageState.UnpackDir pkgState) (PackageState.PackageSpec pkgState)
          (PackageState.InstalledFiles pkgState)
          (InstalledApp.mk (fst (appAssociation env)) (snd (appAssociation env)))
          (now env) in
      match failure env with
      | BeginFails err => Ret (db, Some err)
      | f =>
          let tx := db in
          match f with
          | MarshalFails err => Ret (db, Some err)
          | _ =>
              let jsonState := Object (Marshal pkgState) in
              match f with
              | ExecFails err => (* tx.Rollback() *) Ret (db, Some err)
              | _ =>
                  let tx := insert_or_replace tx (PkgSpec.Name spec)
                              (PkgSpec.Version spec) (PkgSpec.Arch spec) jsonState in
                  match f with
                  | CommitFails err => Ret (db, Some err)
                  | _ => Ret (tx, None)
                  end
              end
          end
      end
  end.

(** [func (g *gooDB) WriteStateToDB(gooState *client.GooGetState) error];
    [env i] is what the [i]-th call of [addPkg] finds. *)
Fixpoint WriteStateToDB_from (env : nat -> Env) (i : nat) (db : Table)
         (gooState : list PackageState.t) : go (Table * option error) :=
  match gooState with
  | [] => Ret (db, None)
  | pkgState :: rest =>
      match addPkg (env i) db pkgState with
      | Ret (db', None) => WriteStateToDB_from env (S i) db' rest
      | Ret (db', Some err) => Ret (db', Some err)
      | Panic => Panic
      | Fatal e => Fatal e
      end
  end.

Definition WriteStateToDB (env : nat -> Env) (db : Table)
           (gooState : list PackageState.t) : go (Table * option error) :=
  WriteStateToDB_from env 0 db gooState.

(** The row that a successful [addPkg] commits for a state with a
    spec. *)
Definition committed (env : Env) (db : Table) (ps : PackageState.t) : Table :=
  match PackageState.PackageSpec ps with
  | None => db
  | Some spec =>
      insert_or_replace db (PkgSpec.Name spec) (PkgSpec.Version spec)
        (PkgSpec.Arch spec)
        (Object (Marshal
           (PackageState.mk
              (PackageState.SourceRepo ps) (PackageState.DownloadURL ps)
              (PackageState.Checksum ps) (PackageState.LocalPath ps)
              (PackageState.UnpackDir ps) (PackageState.PackageSpec ps)
              (PackageState.InstalledFiles ps)
              (InstalledApp.mk (fst (appAssociation env)) (snd (appAssociation env)))
              (now env))))
  end.

(** The table after the states of a list have been committed one
    after the other, the first by call [i]. *)
Fixpoint committed_all (env : nat -> Env) (i : nat) (db : Table)
         (l : list PackageState.t) : Table :=
  match l with
  | [] => db
  | ps :: rest => committed_all env (S i) (committed (env i) db ps) rest
  end.
End Write.

Definition fault_error (f : fault) : option error :=
  match f with
  | NoFault => None
  | BeginFails e | MarshalFails e | ExecFails e | CommitFails e => Some e
  end.

Definition has_spec (ps : PackageState.t) : Prop :=
  is_Some (PackageState.PackageSpec ps).

(** *** Removing *)

(** The values are written into the SQL text between single quotes;
    the text is the intended [DELETE] when they contain no quote and
    no NUL. *)
Fixpoint literal_safe (s : string) : bool :=
  match s with
  | EmptyString => true
  | String c s' =>
      negb (Ascii.eqb c "'"%char) && negb (Ascii.eqb c Ascii.zero) && literal_safe s'
  end.

(** [func (g *gooDB) RemovePkg(packageName, arch string) error];
    [exec_err] is the error of [ExecContext], if any.  [None]: the
    text is not the intended statement and is not interpreted here. *)
Definition RemovePkg (exec_err : option error) (db : Table) (packageName arch : string)
  : option (Table * option error) :=
  if literal_safe packageName && literal_safe arch then
    match exec_err with
    | Some err => Some (db, Some err)
    | None => Some (delete_where db packageName arch, None)
    end
  else None.

(** *** Fetching *)

Section Fetch.
(** The order in which the query delivers the rows it selects; all
    of them have the same [PkgName], so [ORDER BY PkgName] leaves it
    to the engine. *)
Variable scan : list Row.t -> list Row.t.

(** [SELECT PkgJson FROM InstalledPackages WHERE PkgName = ? ORDER BY PkgName] *)
Definition selectSpecQuery (db : Table) (pkgName : string) : list blob :=
  Row.PkgJson <$> scan (filter (fun r => (Row.PkgName r =? pkgName) = true) (rows db)).

(** The loop [for spec.Next()]: every row is decoded into the same
    [pkgState]; the errors are dropped. *)
Definition fetch_loop (cursor : list blob) (pkgState : PackageState.t)
  : PackageState.t :=
  fold_left (fun st b => fst (Unmarshal b st)) cursor pkgState.

(** [func (g *gooDB) FetchPkg(pkgName string) (client.PackageState, error)];
    when [db.Query] fails, [spec] is nil and [spec.Next()] panics. *)
Definition FetchPkg (query_err : option error) (db : Table) (pkgName : string)
  : go (PackageState.t * option error) :=
  match query_err with
  | Some _ => Panic
  | None =>
      Ret (fetch_loop (selectSpecQuery db pkgName) PackageState.zero, None)
  end.
End Fetch.

(** Two orders a query can deliver: by rowid, and by the index on
    (PkgName, PkgArch), that is by arch. *)
Definition by_rowid (l : list Row.t) : list Row.t := l.

Fixpoint insert_by_arch (r : Row.t) (l : list Row.t) : list Row.t :=
  match l with
  | [] => [r]
  | x :: l' =>
      if String.leb (Row.PkgArch r) (Row.PkgArch x) then r :: l
      else x :: insert_by_arch r l'
  end.

Definition by_arch (l : list Row.t) : list Row.t :=
  fold_right insert_by_arch [] l.

(** The version column of the rows of a name. *)
Definition versions_of (db : Table) (pkgName : string) : list string :=
  Row.PkgVer <$> filter (fun r => (Row.PkgName r =? pkgName) = true) (rows db).
End googetdb.

(** ** Package verify *)

Module verify.
Import goolib client.

(** A gzip-compressed tar stream as [extractVerify] reads it: the
    error of [gzip.NewReader], if any, and what successive calls of
    [tr.Next()] return before [io.EOF]: a header name or an error. *)
Record archive : Type := mkArchive {
  gzip_err : option error;
  headers : list (error + string)
}.

Inductive OpenResult : Type :=
| Opened
| OpenNotExist (e : error)   (* an error with [os.IsNotExist(err)] *)
| OpenError (e : error).

Record World : Type := mkWorld {
  os_Open : string -> OpenResult;
  (** The stream read from the opened local file. *)
  local_stream : string -> archive;
  goolib_Checksum : string -> string;
  (** [strings.TrimSuffix(p, filepath.Ext(p))] *)
  trim_ext : string -> string;
  url_Parse : string -> option error;
  (** [httpClient.Get(url)]: an error or the stream of the body. *)
  http_Get : string -> string -> error + archive;
  filepath_Clean : string -> string;
  filepath_Join : string -> string -> string;
  MkdirAll : string -> option error;
  OpenFile : string -> option error;
  Copy : string -> option error;
  Close : string -> option error;
  (** [system.Verify(dir, spec)]; the first argument tells the call
      after the package was extracted anew from the one before. *)
  system_Verify : bool -> string -> PkgSpec.t -> option error;
  download_Package : string -> string -> string -> string -> option error;
  download_ExtractPkg : string -> error + string
}.

Inductive event : Type :=
| EvOpen (path : string)
| EvGet (proxy url : string)
| EvExtractVerify (path dir : string)
| EvVerify (reextracted : bool) (dir : string) (result : option error)
| EvDownload (url path : string)
| EvExtractPkg (path : string).

Section Run.
Variable w : World.
Local Open Scope io_scope.

(** The loop of [extractVerify] over the entries of the tar stream. *)
Fixpoint extract_loop (headers : list (error + string)) (verify dir : string)
  : option error :=
  match headers with
  | [] => Some ("verify command " +:+ verify +:+ " not found in package")
  | inl err :: _ => Some err
  | inr name :: rest =>
      if negb (filepath_Clean w name =? filepath_Clean w verify) then
        extract_loop rest verify dir
      else
        match MkdirAll w dir with
        | Some err => Some err
        | None =>
            let f := filepath_Join w dir verify in
            match OpenFile w f with
            | Some err => Some err
            | None =>
                match Copy w f with
                | Some err => (* f.Close() *) Some err
                | None => Close w f
                end
            end
        end
  end.

(** [func extractVerify(r io.Reader, verify, dir string) error] *)
Definition extractVerify (r : archive) (verify dir : string) : option error :=
  match gzip_err r with
  | Some err => Some err
  | None => extract_loop (headers r) verify dir
  end.

(** [func RunVerifyCommand(ctx context.Context, ps client.PackageState,
     proxyServer string) (bool, error)] *)
Definition RunVerifyCommand (ps : PackageState.t) (proxyServer : string)
  : io event (bool * option error) :=
  match PackageState.PackageSpec ps with
  | None => ([], Panic)
  | Some spec =>
      if ExecFile.Path (PkgSpec.Verify spec) =? "" then io_ret (true, None)
      else
        emit (EvOpen (PackageState.LocalPath ps)) ;;;
        match os_Open w (PackageState.LocalPath ps) with
        | OpenError err => io_ret (false, Some err)
        | opened =>
            let rd := match opened with OpenNotExist _ => true | _ => false end in
            let rd :=
              if negb rd && negb (PackageState.Checksum ps =? "")
                 && negb (goolib_Checksum w (PackageState.LocalPath ps)
                          =? PackageState.Checksum ps)
              then true else rd in
            let dir := trim_ext w (PackageState.LocalPath ps) in
            r <- (if rd then
                    if PackageState.DownloadURL ps =? "" then
                      io_ret (inl ("can not pull package " +:+ PkgSpec.Name spec
                                   +:+ "." +:+ PkgSpec.Arch spec +:+ "."
                                   +:+ PkgSpec.Version spec
                                   +:+ " from repo, DownloadURL not saved"))
                    else
                      match (if negb (proxyServer =? "")
                             then url_Parse w proxyServer else None) with
                      | Some err => io_ret (inl err)
                      | None =>
                          emit (EvGet proxyServer (PackageState.DownloadURL ps)) ;;;
                          match http_Get w proxyServer (PackageState.DownloadURL ps) with
                          | inl err => io_ret (inl err)
                          | inr body => io_ret (inr body)
                          end
                      end
                  else io_ret (inr (local_stream w (PackageState.LocalPath ps)))) ;;
            match r with
            | inl err => io_ret (false, Some err)
            | inr r =>
                emit (EvExtractVerify (ExecFile.Path (PkgSpec.Verify spec)) dir) ;;;
                match extractVerify r (ExecFile.Path (PkgSpec.Verify spec)) dir with
                | Some err => io_ret (false, Some err)
                | None =>
                    emit (EvVerify false dir (system_Verify w false dir spec)) ;;;
                    match system_Verify w false dir spec with
                    | None => io_ret (true, None)
                    | Some _ =>
                        redownload <-
                          (if rd then
                             emit (EvDownload (PackageState.DownloadURL ps)
                                              (PackageState.LocalPath ps)) ;;;
                             io_ret (download_Package w (PackageState.DownloadURL ps)
                                       (PackageState.LocalPath ps)
                                       (PackageState.Checksum ps) proxyServer)
                           else io_ret None) ;;
                        match redownload with
                        | Some err =>
                            io_ret (false,
                                    Some ("error redownloading package: " +:+ err))
                        | None =>
                            emit (EvExtractPkg (PackageState.LocalPath ps)) ;;;
                            match download_ExtractPkg w (PackageState.LocalPath ps) with
                            | inl err => io_ret (false, Some err)
                            | inr dir =>
                                emit (EvVerify true dir (system_Verify w true dir spec)) ;;;
                                match system_Verify w true dir spec with
                                | Some _ => io_ret (false, None)
                                | None => io_ret (true, None)
                                end
                            end
                        end
                    end
                end
            end
        end
  end.
End Run.

(** The verify script ran on the package extracted anew and did not
    succeed. *)
Definition reextracted_verify_failed (t : list event) : Prop :=
  exists dir err, EvVerify true dir (Some err) ∈ t.
End verify.

(** ** The repository of the data model, with its priority *)

Module repo_priority.
Import goolib client.

(** Modelled from the spec: a Repo aggregates a priority integer and a
    list of RepoSpecs.  The [RepoMap] of the client has no such
    component; this record exists to state the selection rule that
    mentions it. *)
Module Repo.
Record t : Type := mk { Priority : Z; Packages : list RepoSpec.t }.
End Repo.

(** The [RepoMap] that the client sees of a set of repos. *)
Definition packages (repos : gmap string Repo.t) : gmap string (list RepoSpec.t) :=
  Repo.Packages <$> repos.

(** The first rule of the selection as the spec words it: the chosen
    repo has the highest priority among the repos with a candidate. *)
Definition highest_priority (repos : gmap string Repo.t) (name arch repo : string)
  : Prop :=
  forall r' R' s',
    repos !! r' = Some R' ->
    candidate (packages repos) name arch r' s' ->
    exists R, repos !! repo = Some R /\ (Repo.Priority R' <= Repo.Priority R)%Z.
End repo_priority.

(** ** Concrete inputs on which the functions are run *)

Module sample.
Import goolib client repo_priority index.

Definition spec (n a v : string) : PkgSpec.t :=
  PkgSpec.mk n v a "" (ExecFile.mk "") (ExecFile.mk "").

Definition entry (n a v : string) : RepoSpec.t :=
  RepoSpec.mk "" "" (Some (spec n a v)).

(** Repo "a" offers p 2, repo "b" offers p 1 and q 3. *)
Definition rm0 : gmap string (list RepoSpec.t) :=
  <["a" := [entry "p" "noarch" "2"]]>
    (<["b" := [entry "p" "noarch" "1"; entry "q" "x86_64" "3"]]> ∅).

(** The same repos with priorities: "b" is preferred. *)
Definition repos0 : gmap string Repo.t :=
  <["a" := Repo.mk 500 [entry "p" "noarch" "2"]]>
    (<["b" := Repo.mk 1500 [entry "p" "noarch" "1"; entry "q" "x86_64" "3"]]> ∅).

(** Two repos that offer the same version of p. *)
Definition rm_tie : gmap string (list RepoSpec.t) :=
  <["a" := [entry "p" "noarch" "1"]]> (<["b" := [entry "p" "noarch" "1"]]> ∅).

Definition backwards (m : gmap string (list PkgSpec.t))
  : list (string * list PkgSpec.t) :=
  reverse (map_to_list m).

(** Two index objects, for package a 1 and package b 2. *)
Definition jA : option JRepoSpec :=
  Some (mkJRepoSpec (Some "c1") (Some "a.noarch.1.goo")
          (JObject (mkJPkgSpec (Some "a") (Some "1") (Some "noarch")
                      None None None))).

Definition jB : option JRepoSpec :=
  Some (mkJRepoSpec (Some "c2") (Some "b.noarch.2.goo")
          (JObject (mkJPkgSpec (Some "b") (Some "2") (Some "noarch")
                      None None None))).

Definition rsA : RepoSpec.t :=
  RepoSpec.mk "c1" "a.noarch.1.goo" (Some (spec "a" "noarch" "1")).

Definition rsB : RepoSpec.t :=
  RepoSpec.mk "c2" "b.noarch.2.goo" (Some (spec "b" "noarch" "2")).

(** A world in which the server answers 404 for [index.gz] and serves
    at [index] a plain payload of two concatenated arrays, one with
    the object for a and one with the object for b; the cache file is
    absent and writable. *)
Definition w_two (reuse : bool) : World :=
  {| json_reuse := reuse;
     DetectContentType := fun _ => "text/plain; charset=utf-8";
     gzip_NewReader := fun _ => None;
     json_values := fun rd =>
       match rd with
       | BytesReader b =>
           if b =? "two arrays" then [inr (JTopArray [jA]); inr (JTopArray [jB])]
           else []
       | _ => []
       end;
     filepath_Base := fun p => "repo";
     filepath_Join := fun d f => d +:+ "/" +:+ f;
     Stat := fun _ => StatNotExist "file does not exist";
     Open := fun _ => Some "file does not exist";
     Create := fun _ => None;
     Write := fun _ => None;
     Close := fun _ => None;
     url_Parse := fun _ => None;
     http_Get := fun proxy url =>
       if url =? "https://host/repo/index.gz"
       then inr (Response.mk 404 "404 Not Found" "")
       else if url =? "https://host/repo/index"
            then inr (Response.mk 200 "200 OK" "two arrays")
            else inl "no such host";
     storage_NewClient := None;
     gcs_read := fun _ _ => inl "object does not exist" |}.

(** A JSON text of a spec that writes every member. *)
Definition marshalAll (s : PkgSpec.t) : JPkgSpec :=
  mkJPkgSpec (Some (PkgSpec.Name s)) (Some (PkgSpec.Version s))
             (Some (PkgSpec.Arch s)) (Some (PkgSpec.Authors s))
             (Some (ExecFile.Path (PkgSpec.Install s)))
             (Some (ExecFile.Path (PkgSpec.Verify s))).

Definition state (n a v : string) : PackageState.t :=
  PackageState.mk "" "" "" "" "" (Some (spec n a v)) None (InstalledApp.mk "" "") 0.

(** The table after p 2 for arm64 and then p 1 for x86_64 were
    written: two rows of the same name, in id order and in arch
    order. *)
Definition two_archs : googetdb.Table :=
  googetdb.mkTable
    [googetdb.Row.mk 1 "p" "arm64" "2"
       (googetdb.Object (googetdb.Marshal marshalAll (state "p" "arm64" "2")));
     googetdb.Row.mk 2 "p" "x86_64" "1"
       (googetdb.Object (googetdb.Marshal marshalAll (state "p" "x86_64" "1")))]
    2.

Definition empty_table : googetdb.Table := googetdb.mkTable [] 0.

(** The second call of [addPkg] fails in [ExecContext]. *)
Definition second_fails (i : nat) : googetdb.Env :=
  googetdb.mkEnv ("", "") 1700000000
    (match i with
     | 1 => googetdb.ExecFails "disk I/O error"
     | _ => googetdb.NoFault
     end).

(** An installed package with a verify script, whose archive is in
    the cache with the right checksum, on a machine where the script
    exits with status 1 however the package was extracted. *)
Definition verified_state : PackageState.t :=
  PackageState.mk "https://host/repo" "https://host/repo/p.noarch.1.goo" "abc"
    "cache/p.noarch.1.goo" "cache/p.noarch.1"
    (Some (PkgSpec.mk "p" "1" "noarch" "" (ExecFile.mk "install.ps1")
             (ExecFile.mk "verify.ps1")))
    None (InstalledApp.mk "" "") 0.

Definition w_verify : verify.World :=
  {| verify.os_Open := fun _ => verify.Opened;
     verify.local_stream := fun _ =>
       verify.mkArchive None [inr "p.pkgspec"; inr "verify.ps1"];
     verify.goolib_Checksum := fun _ => "abc";
     verify.trim_ext := fun _ => "cache/p.noarch.1";
     verify.url_Parse := fun _ => None;
     verify.http_Get := fun _ _ => inl "no such host";
     verify.filepath_Clean := fun p => p;
     verify.filepath_Join := fun d f => d +:+ "/" +:+ f;
     verify.MkdirAll := fun _ => None;
     verify.OpenFile := fun _ => None;
     verify.Copy := fun _ => None;
     verify.Close := fun _ => None;
     verify.system_Verify := fun _ _ _ => Some "exit status 1";
     verify.download_Package := fun _ _ _ _ => None;
     verify.download_ExtractPkg := fun _ => inr "cache/p.noarch.1" |}.
End sample.

(** ** Package client: the state of the client and lookups in repos *)

Module GooGetState.
Import goolib client.

(** [type GooGetState []PackageState] *)
Abbreviation t := (list PackageState.t).

(** [func (s *GooGetState) Add(ps PackageState)] *)
Definition Add (s : t) (ps : PackageState.t) : t := s ++ [ps].

(** The index at which the loop [for i, ps := range *s] first finds
    [ps.Match(pi)], counting from [i]. *)
Fixpoint first_match (s : t) (pi : PackageInfo.t) (i : nat) : go (option nat) :=
  match s with
  | [] => Ret None
  | ps :: rest =>
      match PackageState.Match ps pi with
      | Ret true => Ret (Some i)
      | Ret false => first_match rest pi (S i)
      | Panic => Panic
      | Fatal e => Fatal e
      end
  end.

Definition no_match_error (pi : PackageInfo.t) (suffix : string) : error :=
  "no match found for package " +:+ PackageInfo.Name pi +:+ "."
  +:+ PackageInfo.Arch pi +:+ "." +:+ PackageInfo.Ver pi +:+ suffix.

(** [func (s *GooGetState) Remove(pi goolib.PackageInfo) error]: the
    last element is copied over the match and the slice is cut by
    one. *)
Definition Remove (s : t) (pi : PackageInfo.t) : go (t * option error) :=
  match first_match s pi 0 with
  | Ret (Some i) =>
      match last s with
      | Some l => Ret (take (length s - 1) (<[i := l]> s), None)
      | None => Ret (s, None)
      end
  | Ret None => Ret (s, Some (no_match_error pi " in state"))
  | Panic => Panic
  | Fatal e => Fatal e
  end.

(** [func (s *GooGetState) GetPackageState(pi goolib.PackageInfo) (PackageState, error)] *)
Fixpoint GetPackageState (s : t) (pi : PackageInfo.t)
  : go (PackageState.t * option error) :=
  match s with
  | [] => Ret (PackageState.zero, Some (no_match_error pi ""))
  | ps :: rest =>
      match PackageState.Match ps pi with
      | Ret true => Ret (ps, None)
      | Ret false => GetPackageState rest pi
      | Panic => Panic
      | Fatal e => Fatal e
      end
  end.
End GooGetState.

Module lookup.
Import goolib client.

(** [ps.Name == pi.Name && ps.Arch == pi.Arch && ps.Version == pi.Ver]:
    no field of [pi] is a wildcard here. *)
Definition same_package (ps : PkgSpec.t) (pi : PackageInfo.t) : bool :=
  (PkgSpec.Name ps =? PackageInfo.Name pi)
  && (PkgSpec.Arch ps =? PackageInfo.Arch pi)
  && (PkgSpec.Version ps =? PackageInfo.Ver pi).

(** [func FindRepoSpec(pi goolib.PackageInfo, pl []goolib.RepoSpec) (goolib.RepoSpec, error)] *)
Fixpoint FindRepoSpec (pi : PackageInfo.t) (pl : list RepoSpec.t)
  : go (RepoSpec.t * option error) :=
  match pl with
  | [] =>
      Ret (RepoSpec.zero,
           Some ("no match found for package " +:+ PackageInfo.Name pi +:+ "."
                 +:+ PackageInfo.Arch pi +:+ "." +:+ PackageInfo.Ver pi +:+ " in repo"))
  | p :: rest =>
      match RepoSpec.PackageSpec p with
      | None => Panic
      | Some ps => if same_package ps pi then Ret (p, None) else FindRepoSpec pi rest
      end
  end.

(** The inner loop of [WhatRepo] over the entries of one repo:
    whether one of them is the package. *)
Fixpoint lists_package (pi : PackageInfo.t) (pl : list RepoSpec.t) : go bool :=
  match pl with
  | [] => Ret false
  | p :: rest =>
      match RepoSpec.PackageSpec p with
      | None => Panic
      | Some ps => if same_package ps pi then Ret true else lists_package pi rest
      end
  end.

(** [func WhatRepo(pi goolib.PackageInfo, rm RepoMap) (string, error)],
    on the sequence of entries that [range rm] yields. *)
Fixpoint WhatRepo_entries (pi : PackageInfo.t) (entries : list (string * list RepoSpec.t))
  : go (string * option error) :=
  match entries with
  | [] =>
      Ret ("", Some ("package " +:+ PackageInfo.Arch pi +:+ " " +:+ PackageInfo.Name pi
                     +:+ " version " +:+ PackageInfo.Ver pi +:+ " not found in any repo"))
  | (r, pl) :: rest =>
      match lists_package pi pl with
      | Ret true => Ret (r, None)
      | Ret false => WhatRepo_entries pi rest
      | Panic => Panic
      | Fatal e => Fatal e
      end
  end.

Section WhatRepo.
(** The order in which [range rm] delivers the repos. *)
Variable range_rm : gmap string (list RepoSpec.t) -> list (string * list RepoSpec.t).

Definition WhatRepo (pi : PackageInfo.t) (rm : gmap string (list RepoSpec.t))
  : go (string * option error) :=
  WhatRepo_entries pi (range_rm rm).
End WhatRepo.

(** Repo [r] of [rm] lists the package [pi] exactly. *)
Definition offers (rm : gmap string (list RepoSpec.t)) (r : string) (pi : PackageInfo.t)
  : Prop :=
  exists pl p ps,
    rm !! r = Some pl /\ p ∈ pl /\ RepoSpec.PackageSpec p = Some ps
    /\ same_package ps pi = true.
End lookup.

(** ** Further concrete inputs *)

Module cases.
Import goolib client sample.

Definition st_a : PackageState.t := state "a" "noarch" "1".
Definition st_b : PackageState.t := state "b" "noarch" "2".
Definition st_c : PackageState.t := state "c" "x86_64" "3".

(** A request for b of any arch and version. *)
Definition any_b : PackageInfo.t := PackageInfo.mk "b" "" "".

Definition p_noarch : PackageInfo.t := PackageInfo.mk "p" "noarch" "".
End cases.


(** ** Package client: the map of all repos *)

Module available.
Import goolib client index.

Section AvailableVersions.
(** The world as the [i]-th call of [unmarshalRepoPackages] finds it;
    earlier calls may have changed it (they write cache files). *)
Variable world : nat -> World.
Variable SplitGCSUrl : string -> bool * string * string.
Local Open Scope io_scope.

(** The loop [for _, r := range srcs] of [AvailableVersions], from
    call [i] on, with the map [rm] as built so far. *)
Fixpoint AvailableVersions_from (i : nat) (rm : gmap string (list RepoSpec.t))
         (srcs : list string) (cacheDir : string) (cacheLife : Z)
         (proxyServer : string) : io event (gmap string (list RepoSpec.t)) :=
  match srcs with
  | [] => io_ret rm
  | r :: rest =>
      res <- unmarshalRepoPackages (world i) SplitGCSUrl r cacheDir cacheLife proxyServer ;;
      match res with
      | (rf, None) =>
          AvailableVersions_from (S i) (<[r := rf]> rm) rest cacheDir cacheLife proxyServer
      | (_, Some err) =>
          (* logger.Errorf; continue *)
          AvailableVersions_from (S i) rm rest cacheDir cacheLife proxyServer
      end
  end.

(** [func AvailableVersions(srcs []string, cacheDir string,
     cacheLife time.Duration, proxyServer string) RepoMap] *)
Definition AvailableVersions (srcs : list string) (cacheDir : string) (cacheLife : Z)
           (proxyServer : string) : io event (gmap string (list RepoSpec.t)) :=
  AvailableVersions_from 0 ∅ srcs cacheDir cacheLife proxyServer.

(** What the [i]-th call returns. *)
Definition fetched (i : nat) (r cacheDir : string) (cacheLife : Z) (proxyServer : string)
  : go result :=
  snd (unmarshalRepoPackages (world i) SplitGCSUrl r cacheDir cacheLife proxyServer).
End AvailableVersions.

(** The objects read from buckets, in order. *)
Definition objects (t : list event) : list (string * string) :=
  omap (fun e => match e with EvObject b o => Some (b, o) | _ => None end) t.

(** The read of an object of a bucket failed, in [NewReader] or in
    [ReadAll]. *)
Definition object_unreadable (w : World) (bucket object : string) : bool :=
  match gcs_read w bucket object with
  | inr (inr _) => false
  | _ => true
  end.

(** The paths of the two index objects below [object]. *)
Definition index_object (object : string) : string :=
  (if negb (String.length object =? 0)%nat then object +:+ "/" else object) +:+ "index".
End available.

Module cases_index.
Import goolib client index sample.

(** A world whose cache file for the repo was written ten seconds ago
    and holds one array with the object for a. *)
Definition w_cached : World :=
  {| json_reuse := true;
     DetectContentType := fun _ => "application/octet-stream";
     gzip_NewReader := fun _ => None;
     json_values := fun rd =>
       match rd with
       | FileReader _ => [inr (JTopArray [jA])]
       | _ => []
       end;
     filepath_Base := fun p => "repo";
     filepath_Join := fun d f => d +:+ "/" +:+ f;
     Stat := fun _ => StatOk 10;
     Open := fun _ => None;
     Create := fun _ => None;
     Write := fun _ => None;
     Close := fun _ => None;
     url_Parse := fun _ => Some "invalid URL";
     http_Get := fun _ _ => inl "no such host";
     storage_NewClient := None;
     gcs_read := fun _ _ => inl "object does not exist" |}.

(** The repo that the server of [w_two] serves and one on a host that
    does not answer. *)
Definition two_sources : list string := ["https://host/repo"; "https://down/repo"].
End cases_index.


(** ** Package googetdb: listing, and what the table keeps *)

Module googetdb_more.
Import goolib client googetdb.

(** The unique key of a row. *)
Definition key (r : Row.t) : string * string := (Row.PkgName r, Row.PkgArch r).

(** What the schema promises of the committed table: no two rows have
    the same (PkgName, PkgArch), no two rows have the same id, and no
    id exceeds the AUTOINCREMENT counter. *)
Definition table_ok (t : Table) : Prop :=
  NoDup (key <$> rows t)
  /\ NoDup (Row.id <$> rows t)
  /\ Forall (fun r => (Row.id r <= seq t)%Z) (rows t).

(** What [FetchPkgs] finds outside the process: the error of the
    listing query, and for the [i]-th row of its result the error of
    [pkgs.Scan] and of the query that [FetchPkg] makes. *)
Record FetchEnv : Type := mkFetchEnv {
  list_err : option error;
  scan_err : nat -> option error;
  fetch_err : nat -> option error
}.

Section FetchPkgs.
(** The order in which a query of [FetchPkg] delivers the rows of a
    name, and the order in which [Select PkgName from
    InstalledPackages] delivers all rows. *)
Variable scan : list Row.t -> list Row.t.
Variable scan_all : list Row.t -> list Row.t.

(** The loop [for pkgs.Next()] of [FetchPkgs] over the names not yet
    read, the first by the [i]-th turn. *)
Fixpoint FetchPkgs_loop (env : FetchEnv) (db : Table) (names : list string) (i : nat)
         (state : list PackageState.t) : go (list PackageState.t * option error) :=
  match names with
  | [] => Ret (state, None)
  | pkgName :: rest =>
      match scan_err env i with
      | Some err => Ret ([], Some err)
      | None =>
          match FetchPkg scan (fetch_err env i) db pkgName with
          | Ret (pkgState, None) =>
              FetchPkgs_loop env db rest (S i) (state ++ [pkgState])
          | Ret (_, Some err) => Ret ([], Some err)
          | Panic => Panic
          | Fatal e => Fatal e
          end
      end
  end.

(** [func (g *gooDB) FetchPkgs() (client.GooGetState, error)]; when the
    listing query fails, [pkgs] is nil and [pkgs.Next()] panics. *)
Definition FetchPkgs (env : FetchEnv) (db : Table)
  : go (list PackageState.t * option error) :=
  match list_err env with
  | Some _ => Panic
  | None => FetchPkgs_loop env db (Row.PkgName <$> scan_all (rows db)) 0 []
  end.
End FetchPkgs.

Definition no_faults : FetchEnv := mkFetchEnv None (fun _ => None) (fun _ => None).

(** The state as [addPkg] stores it: with the application association
    and the install date of the call. *)
Definition stamped (env : Env) (ps : PackageState.t) : PackageState.t :=
  PackageState.mk
    (PackageState.SourceRepo ps) (PackageState.DownloadURL ps)
    (PackageState.Checksum ps) (PackageState.LocalPath ps)
    (PackageState.UnpackDir ps) (PackageState.PackageSpec ps)
    (PackageState.InstalledFiles ps)
    (InstalledApp.mk (fst (appAssociation env)) (snd (appAssociation env)))
    (now env).

(** *** [processExitCodes] *)

(** [strings.Split(s, ",")]; [cur] is the piece being read, reversed. *)
Fixpoint split_commas (s : string) (cur : string) : list string :=
  match s with
  | EmptyString => [String.rev cur]
  | String c s' =>
      if Ascii.eqb c ","%char then String.rev cur :: split_commas s' ""
      else split_commas s' (String c cur)
  end.

Definition Split (s : string) : list string := split_commas s "".

(** The digits of a decimal number, most significant first. *)
Fixpoint decimal (s : string) (acc : Z) : option Z :=
  match s with
  | EmptyString => Some acc
  | String c s' =>
      let n := Z.of_N (N_of_ascii c) in
      if ((48 <=? n) && (n <=? 57))%Z then decimal s' (acc * 10 + (n - 48))%Z
      else None
  end.

Definition MaxInt : Z := (2 ^ 63 - 1)%Z.
Definition MinInt : Z := (- 2 ^ 63)%Z.

(** [strconv.Atoi] for a 64-bit [int]: an optional sign and one or
    more digits; the value and whether there was an error.  A syntax
    error yields 0; a number out of range yields the nearest bound
    (and an error). *)
Definition Atoi (s : string) : Z * bool :=
  let '(neg, body) :=
    match s with
    | String "-"%char s' => (true, s')
    | String "+"%char s' => (false, s')
    | _ => (false, s)
    end in
  match body with
  | EmptyString => (0%Z, true)
  | _ =>
      match decimal body 0 with
      | None => (0%Z, true)
      | Some n =>
          let v := if neg then (- n)%Z else n in
          if (v <? MinInt)%Z then (MinInt, true)
          else if (MaxInt <? v)%Z then (MaxInt, true)
          else (v, false)
      end
  end.

(** [func processExitCodes(eCodes string) []int]: the error of [Atoi]
    is dropped. *)
Definition processExitCodes (eCodes : string) : list Z :=
  (fun v => fst (Atoi v)) <$> Split eCodes.

(** An optional sign followed by one or more digits. *)
Fixpoint all_digits (s : string) : bool :=
  match s with
  | EmptyString => true
  | String c s' =>
      let n := Z.of_N (N_of_ascii c) in
      ((48 <=? n) && (n <=? 57))%Z && all_digits s'
  end.

Definition is_number (s : string) : bool :=
  let body :=
    match s with
    | String "-"%char s' => s'
    | String "+"%char s' => s'
    | _ => s
    end in
  negb (body =? "") && all_digits body.

(** The number of commas of a string. *)
Fixpoint commas (s : string) : nat :=
  match s with
  | EmptyString => 0
  | String c s' => (if Ascii.eqb c ","%char then 1 else 0) + commas s'
  end.
End googetdb_more.

Module cases_db.
Import goolib client googetdb sample.

(** A call of [addPkg] without a fault. *)
Definition calm : Env := mkEnv ("", "") 1700000000 NoFault.

Definition st_q : PackageState.t := state "q" "noarch" "1".
End cases_db.


(** ** Package verify: vocabulary *)

Module verify_more.
Import goolib client verify.

(** The local archive cannot serve: it is missing, or its checksum is
    recorded and differs. *)
Definition must_download (w : World) (ps : PackageState.t) : bool :=
  match os_Open w (PackageState.LocalPath ps) with
  | OpenNotExist _ => true
  | _ =>
      negb (PackageState.Checksum ps =? "")
      && negb (goolib_Checksum w (PackageState.LocalPath ps) =? PackageState.Checksum ps)
  end.

(** The header names that [tr.Next()] delivered before the entry of
    the verify command differ from it. *)
Definition other_entry (w : World) (verify : string) (h : error + string) : Prop :=
  match h with
  | inr name => filepath_Clean w name <> filepath_Clean w verify
  | inl _ => False
  end.
End verify_more.

Module cases_verify.
Import goolib client sample.

(** As [w_verify], but the script succeeds once the package has been
    extracted anew. *)
Definition w_repaired : verify.World :=
  {| verify.os_Open := fun _ => verify.Opened;
     verify.local_stream := fun _ =>
       verify.mkArchive None [inr "p.pkgspec"; inr "verify.ps1"];
     verify.goolib_Checksum := fun _ => "abc";
     verify.trim_ext := fun _ => "cache/p.noarch.1";
     verify.url_Parse := fun _ => None;
     verify.http_Get := fun _ _ => inl "no such host";
     verify.filepath_Clean := fun p => p;
     verify.filepath_Join := fun d f => d +:+ "/" +:+ f;
     verify.MkdirAll := fun _ => None;
     verify.OpenFile := fun _ => None;
     verify.Copy := fun _ => None;
     verify.Close := fun _ => None;
     verify.system_Verify := fun reextracted _ _ =>
       if reextracted then None else Some "exit status 1";
     verify.download_Package := fun _ _ _ _ => None;
     verify.download_ExtractPkg := fun _ => inr "cache/p.noarch.1" |}.

(** As [w_verify], but the archive in the cache does not have the
    recorded checksum, and the repo cannot be reached. *)
Definition w_corrupt : verify.World :=
  {| verify.os_Open := fun _ => verify.Opened;
     verify.local_stream := fun _ =>
       verify.mkArchive None [inr "p.pkgspec"; inr "verify.ps1"];
     verify.goolib_Checksum := fun _ => "000";
     verify.trim_ext := fun _ => "cache/p.noarch.1";
     verify.url_Parse := fun _ => None;
     verify.http_Get := fun _ _ => inl "no such host";
     verify.filepath_Clean := fun p => p;
     verify.filepath_Join := fun d f => d +:+ "/" +:+ f;
     verify.MkdirAll := fun _ => None;
     verify.OpenFile := fun _ => None;
     verify.Copy := fun _ => None;
     verify.Close := fun _ => None;
     verify.system_Verify := fun _ _ _ => Some "exit status 1";
     verify.download_Package := fun _ _ _ _ => None;
     verify.download_ExtractPkg := fun _ => inr "cache/p.noarch.1" |}.

(** The archive of the package. *)
Definition goo : verify.archive :=
  verify.mkArchive None [inr "p.pkgspec"; inr "verify.ps1"; inr "install.ps1"].
End cases_verify.

(** * Properties *)

Section Match_props.
Import goolib client.

(** C8: [ps.Match(pi)] returns true exactly when the spec name of [ps]
    equals [pi.Name], its arch equals [pi.Arch] or [pi.Arch] is empty,
    and its version equals [pi.Ver] or [pi.Ver] is empty. *)
Theorem Match_true_iff (ps : PackageState.t) (pi : PackageInfo.t) :
  PackageState.Match ps pi = Ret true <->
  exists spec,
    PackageState.PackageSpec ps = Some spec
    /\ PkgSpec.Name spec = PackageInfo.Name pi
    /\ (PkgSpec.Arch spec = PackageInfo.Arch pi \/ PackageInfo.Arch pi = "")
    /\ (PkgSpec.Version spec = PackageInfo.Ver pi \/ PackageInfo.Ver pi = "").
Proof.
  unfold PackageState.Match.
  destruct (PackageState.PackageSpec ps) as [spec|]; split.
  - intros H. injection H as H.
    apply andb_true_iff in H as [H Hv].
    apply andb_true_iff in H as [Hn Ha].
    apply orb_true_iff in Ha, Hv.
    rewrite !String.eqb_eq in Ha, Hv. apply String.eqb_eq in Hn.
    exists spec. auto.
  - intros (spec' & Hs & Hn & Ha & Hv). injection Hs as <-.
    f_equal. rewrite !andb_true_iff, !orb_true_iff, !String.eqb_eq. auto.
  - discriminate.
  - intros (spec' & Hs & _). discriminate.
Qed.
End Match_props.
Section latest_order.
Import goolib client.
Variable Compare : string -> string -> Z * option error.

Lemma latest_step_fold r pl acc :
  fold_left (latest_step Compare r) pl acc
  = fold_left (flat_step Compare) (pair r <$> pl) acc.
Proof. revert acc. induction pl as [|p pl IH]; intros acc; simpl; [done|]. apply IH. Qed.

Lemma latest_flat_from entries acc :
  fold_left (fun acc e => fold_left (latest_step Compare (fst e)) (snd e) acc) entries acc
  = fold_left (flat_step Compare) (flat entries) acc.
Proof.
  revert acc. induction entries as [|[r pl] es IH]; intros acc; [done|].
  unfold flat. simpl. rewrite fold_left_app, <- latest_step_fold. apply IH.
Qed.

Lemma latest_flat entries :
  latest Compare entries = fold_left (flat_step Compare) (flat entries) ("", "").
Proof. apply latest_flat_from. Qed.

Hypothesis higher_irrefl : forall a, ~ higher Compare a a.
Hypothesis higher_trans :
  forall a b c, higher Compare a b -> higher Compare b c -> higher Compare a c.

Lemma flat_step_cases v r rp :
  v <> "" ->
  (higher Compare (PkgSpec.Version (snd rp)) v /\ flat_step Compare (v, r) rp = (PkgSpec.Version (snd rp), fst rp))
  \/ (~ higher Compare (PkgSpec.Version (snd rp)) v /\ flat_step Compare (v, r) rp = (v, r)).
Proof.
  intros Hv. unfold flat_step, latest_step, higher.
  apply String.eqb_neq in Hv. rewrite Hv.
  destruct (Compare _ v) as [c e]; simpl.
  destruct (Z.eqb_spec c 1); [left|right]; done.
Qed.

Lemma fold_flat_step_spec l v r :
  v <> "" ->
  Forall (fun rp => PkgSpec.Version (snd rp) <> "") l ->
  exists v' r',
    fold_left (flat_step Compare) l (v, r) = (v', r')
    /\ v' <> ""
    /\ ((v', r') = (v, r) \/ exists p, (r', p) ∈ l /\ PkgSpec.Version p = v')
    /\ (v' = v \/ higher Compare v' v)
    /\ (forall rp, rp ∈ l -> ~ higher Compare (PkgSpec.Version (snd rp)) v').
Proof.
  revert v r. induction l as [|rp l IH]; intros v r Hv Hl.
  - exists v, r. split_and!; auto. intros rp H; inversion H.
  - apply Forall_cons in Hl as [Hrp Hl]. cbn [fold_left].
    destruct (flat_step_cases v r rp Hv) as [[Hh ->]|[Hh ->]].
    + destruct (IH _ (fst rp) Hrp Hl) as (v' & r' & -> & Hne & Hin & Hmono & Hmax).
      exists v', r'. split_and!; auto.
      * right. destruct Hin as [Hin|(p & Hp & Hpv)].
        -- injection Hin as -> ->. exists (snd rp). split; [|done].
           destruct rp; left.
        -- exists p. split; [by right|done].
      * right. destruct Hmono as [->|Hm]; eauto.
      * intros rp' [->|Hin']%elem_of_cons; [|by apply Hmax].
        destruct Hmono as [->|Hm]; [apply higher_irrefl|].
        intros H. apply (higher_irrefl _ (higher_trans _ _ _ H Hm)).
    + destruct (IH _ r Hv Hl) as (v' & r' & -> & Hne & Hin & Hmono & Hmax).
      exists v', r'. split_and!; auto.
      * destruct Hin as [Hin|(p & Hp & Hpv)]; [by left|].
        right. exists p. split; [by right|done].
      * intros rp' [->|Hin']%elem_of_cons; [|by apply Hmax].
        destruct Hmono as [->|Hm]; [done|].
        intros H. apply Hh. eauto.
Qed.

Lemma latest_spec entries :
  flat entries <> [] ->
  Forall (fun rp => PkgSpec.Version (snd rp) <> "") (flat entries) ->
  exists v r p,
    latest Compare entries = (v, r)
    /\ (r, p) ∈ flat entries /\ PkgSpec.Version p = v
    /\ (forall rp, rp ∈ flat entries -> ~ higher Compare (PkgSpec.Version (snd rp)) v).
Proof.
  rewrite latest_flat. destruct (flat entries) as [|[r0 p0] l]; [done|].
  intros _ [Hp0 Hl]%Forall_cons. simpl in Hp0.
  cbn [fold_left]. unfold flat_step at 2. cbn [latest_step fst snd String.eqb].
  destruct (fold_flat_step_spec l _ r0 Hp0 Hl) as (v' & r' & -> & Hne & Hin & Hmono & Hmax).
  destruct Hin as [Hin|(p & Hp & Hpv)].
  - injection Hin as -> ->. exists (PkgSpec.Version p0), r0, p0. split_and!; auto; [left|].
    intros rp [->|Hin']%elem_of_cons; [apply higher_irrefl|by apply Hmax].
  - exists v', r', p. split_and!; auto; [by right|].
    intros rp [->|Hin']%elem_of_cons; [|by apply Hmax].
    destruct Hmono as [->|Hm]; [apply higher_irrefl|].
    simpl. intros H. apply (higher_irrefl _ (higher_trans _ _ _ H Hm)).
Qed.
End latest_order.
Section candidates.
Import goolib client.

Lemma matching_Some name arch p s :
  matching name arch p = Some s <->
  RepoSpec.PackageSpec p = Some s /\ PkgSpec.Name s = name /\ PkgSpec.Arch s = arch.
Proof.
  unfold matching. destruct (RepoSpec.PackageSpec p) as [s'|].
  - destruct (String.eqb_spec (PkgSpec.Name s') name) as [Hn|Hn],
             (String.eqb_spec (PkgSpec.Arch s') arch) as [Ha|Ha]; simpl; split;
      try discriminate; try (intros [E [? ?]]; injection E as ->; congruence).
    + intros E; injection E as ->. done.
  - split; [discriminate|]. intros [E _]. discriminate.
Qed.

Lemma collect_lookup name arch (rm : gmap string (list RepoSpec.t)) r l :
  collect name arch rm !! r = Some l <->
  exists pl, rm !! r = Some pl /\ l = omap (matching name arch) pl /\ l <> [].
Proof.
  unfold collect. rewrite lookup_omap.
  destruct (rm !! r) as [pl|]; simpl.
  - destruct (omap (matching name arch) pl) as [|x l'] eqn:E; split.
    + discriminate.
    + intros (pl' & Hpl & -> & Hne). injection Hpl as <-. by rewrite E in Hne.
    + intros H; injection H as <-. exists pl. by rewrite E.
    + intros (pl' & Hpl & -> & Hne). injection Hpl as <-. by rewrite E.
  - split; [discriminate|]. intros (pl & Hpl & _). discriminate.
Qed.

Lemma gather_empty name arch (rm : gmap string (list RepoSpec.t)) :
  gather ∅ name arch rm = collect name arch rm.
Proof.
  unfold gather. apply map_eq; intros r.
  rewrite lookup_union_with, lookup_empty. by destruct (_ !! r).
Qed.

Lemma collect_candidate name arch (rm : gmap string (list RepoSpec.t)) r s :
  (exists l, collect name arch rm !! r = Some l /\ s ∈ l) <-> candidate rm name arch r s.
Proof.
  unfold candidate. split.
  - intros (l & (pl & Hpl & -> & _)%collect_lookup & Hs).
    apply list_elem_of_omap in Hs as (p & Hp & Hm%matching_Some).
    exists pl, p. naive_solver.
  - intros (pl & p & Hpl & Hp & Hm).
    assert (s ∈ omap (matching name arch) pl) as Hs.
    { apply list_elem_of_omap. exists p. split; [done|]. by apply matching_Some. }
    exists (omap (matching name arch) pl). split; [|done].
    apply collect_lookup. exists pl. split_and!; auto.
    intros E. rewrite E in Hs. inversion Hs.
Qed.

Lemma flat_elem (entries : list (string * list PkgSpec.t)) r s :
  (r, s) ∈ flat entries <-> exists l, (r, l) ∈ entries /\ s ∈ l.
Proof.
  unfold flat. rewrite list_elem_of_bind. split.
  - intros ([r' l] & (y & Hy & Hin)%list_elem_of_fmap & He). simpl in *.
    injection Hy as -> ->. eauto.
  - intros (l & He & Hs). exists (r, l). split; [|done].
    apply list_elem_of_fmap. eauto.
Qed.
End candidates.
Section FindRepoLatest_props.
Import goolib client.
Variable Compare : string -> string -> Z * option error.
Variable range : gmap string (list PkgSpec.t) -> list (string * list PkgSpec.t).
Hypothesis range_perm : forall m, range m ≡ₚ map_to_list m.

Lemma flat_range_candidate name arch (rm : gmap string (list RepoSpec.t)) r s :
  (r, s) ∈ flat (range (collect name arch rm)) <-> candidate rm name arch r s.
Proof.
  rewrite flat_elem, <- collect_candidate.
  split; intros (l & Hl & Hs); exists l; split; auto.
  - apply elem_of_map_to_list. by rewrite <- range_perm.
  - rewrite range_perm. by apply elem_of_map_to_list.
Qed.

Lemma collect_nonempty name arch (rm : gmap string (list RepoSpec.t)) :
  (len (collect name arch rm) =? 0)%nat = false <-> exists r s, candidate rm name arch r s.
Proof.
  unfold len. rewrite Nat.eqb_neq, map_size_non_empty_iff. split.
  - intros Hne. apply map_choose in Hne as (r & l & Hl).
    pose proof Hl as (pl & _ & -> & Hnil)%collect_lookup.
    destruct (omap (matching name arch) pl) as [|s l'] eqn:E; [done|].
    exists r, s. apply collect_candidate. exists (s :: l'). split; [done|left].
  - intros (r & s & (l & Hl & _)%collect_candidate) Hempty.
    by rewrite Hempty, lookup_empty in Hl.
Qed.

Lemma collect_empty name arch (rm : gmap string (list RepoSpec.t)) :
  (len (collect name arch rm) =? 0)%nat = true -> collect name arch rm = ∅.
Proof. unfold len. rewrite Nat.eqb_eq. apply map_size_empty_inv. Qed.

Lemma flat_step_mem acc rp :
  flat_step Compare acc rp = acc
  \/ flat_step Compare acc rp = (PkgSpec.Version (snd rp), fst rp).
Proof.
  unfold flat_step, latest_step. destruct acc as [v r].
  destruct (v =? ""); [by right|].
  destruct (Compare _ v) as [c e]. destruct (c =? 1)%Z; auto.
Qed.

Lemma fold_flat_step_mem l acc :
  fold_left (flat_step Compare) l acc = acc
  \/ exists p, (snd (fold_left (flat_step Compare) l acc), p) ∈ l
               /\ PkgSpec.Version p = fst (fold_left (flat_step Compare) l acc).
Proof.
  revert acc. induction l as [|rp l IH]; intros acc; [by left|].
  cbn [fold_left]. destruct (IH (flat_step Compare acc rp)) as [E|(p & Hp & Hv)].
  - rewrite E. destruct (flat_step_mem acc rp) as [->| ->]; [by left|].
    right. exists (snd rp). split; [|done]. destruct rp; left.
  - right. exists p. split; [by right|done].
Qed.

Lemma latest_mem entries :
  flat entries <> [] ->
  exists p, (snd (latest Compare entries), p) ∈ flat entries
            /\ PkgSpec.Version p = fst (latest Compare entries).
Proof.
  rewrite latest_flat. destruct (flat entries) as [|[r0 p0] l]; [done|]. intros _.
  cbn [fold_left]. unfold flat_step at 2 4. cbn [latest_step fst snd String.eqb].
  destruct (fold_flat_step_mem l (PkgSpec.Version p0, r0)) as [->|(p & Hp & Hv)].
  - exists p0. split; [left|done].
  - exists p. split; [by right|done].
Qed.

Lemma flat_nonempty (entries : list (string * list PkgSpec.t)) r s :
  (r, s) ∈ flat entries -> flat entries <> [].
Proof. intros H E. rewrite E in H. inversion H. Qed.

Lemma archs_loop_skip name (rm : gmap string (list RepoSpec.t)) pre archs :
  derefs_ok rm = true ->
  (forall a, a ∈ pre -> forall r s, ~ candidate rm name a r s) ->
  archs_loop Compare range name rm ∅ (pre ++ archs)
  = archs_loop Compare range name rm ∅ archs.
Proof.
  intros Hok. induction pre as [|a pre IH]; intros Hpre; [done|].
  cbn [app archs_loop]. rewrite Hok, gather_empty.
  destruct (len (collect name a rm) =? 0)%nat eqn:E.
  - rewrite (collect_empty _ _ _ E). cbn [negb]. apply IH.
    intros a' Ha'. apply Hpre. by right.
  - apply collect_nonempty in E as (r & s & Hc).
    exfalso. eapply Hpre; [left|exact Hc].
Qed.

(** C7: when [pi.Arch] is empty, [FindRepoLatest] goes through
    [archs] in order and answers with the first arch for which some
    repo lists a candidate of the requested name: the version and
    repo it returns are those that [latest] finds among the
    candidates of that arch alone, whatever later archs offer; when
    no arch has a candidate it returns an error.  ([rm] holds no nil
    [PackageSpec], which the loops dereference.) *)
Theorem FindRepoLatest_first_arch (pi : PackageInfo.t)
        (rm : gmap string (list RepoSpec.t)) (archs : list string) :
  PackageInfo.Arch pi = "" ->
  derefs_ok rm = true ->
  (forall pre a post,
      archs = pre ++ a :: post ->
      (forall a', a' ∈ pre -> forall r s, ~ candidate rm (PackageInfo.Name pi) a' r s) ->
      (exists r s, candidate rm (PackageInfo.Name pi) a r s) ->
      exists v r s,
        FindRepoLatest Compare range pi rm archs = Ret (v, r, a, None)
        /\ (v, r) = latest Compare (range (collect (PackageInfo.Name pi) a rm))
        /\ candidate rm (PackageInfo.Name pi) a r s /\ PkgSpec.Version s = v)
  /\ ((forall a, a ∈ archs -> forall r s, ~ candidate rm (PackageInfo.Name pi) a r s) ->
      exists e, FindRepoLatest Compare range pi rm archs = Ret ("", "", "", Some e)).
Proof.
  intros Harch Hok. unfold FindRepoLatest. rewrite Harch. cbn [String.eqb negb].
  split.
  - intros pre a post -> Hpre Hcand.
    rewrite (archs_loop_skip _ _ _ _ Hok Hpre).
    cbn [archs_loop]. rewrite Hok, gather_empty.
    apply collect_nonempty in Hcand as E. rewrite E. cbn [negb].
    destruct Hcand as (r0 & s0 & Hc0).
    apply flat_range_candidate, flat_nonempty, latest_mem in Hc0 as (p & Hp & Hv).
    destruct (latest Compare _) as [v r]. simpl in *.
    exists v, r, p. split_and!; auto. by apply flat_range_candidate.
  - intros Hnone. rewrite <- (app_nil_r archs).
    rewrite (archs_loop_skip _ _ _ _ Hok Hnone). simpl. eauto.
Qed.

Hypothesis higher_irrefl : forall a, ~ higher Compare a a.
Hypothesis higher_trans :
  forall a b c, higher Compare a b -> higher Compare b c -> higher Compare a c.

Lemma versioned_derefs_ok (rm : gmap string (list RepoSpec.t)) :
  versioned rm -> derefs_ok rm = true.
Proof.
  intros Hv. unfold derefs_ok. apply bool_decide_eq_true.
  eapply map_Forall_impl; [exact Hv|]. intros r pl Hpl. simpl in *.
  eapply Forall_impl; [exact Hpl|]. intros p. unfold has_version, has_spec.
  by destruct (RepoSpec.PackageSpec p).
Qed.

Lemma versioned_candidate (rm : gmap string (list RepoSpec.t)) name arch r s :
  versioned rm -> candidate rm name arch r s -> PkgSpec.Version s <> "".
Proof.
  intros Hv (pl & p & Hpl & Hp & Hs & _).
  specialize (Hv r pl Hpl). simpl in Hv. rewrite Forall_forall in Hv.
  specialize (Hv p Hp). unfold has_version in Hv. rewrite Hs in Hv.
  apply negb_true_iff, String.eqb_neq in Hv. done.
Qed.

(** C1 (amended): for a request with a fixed arch, [FindRepoLatest]
    collects the candidates by repo and returns the highest version
    among the candidates of all repos (no candidate compares higher)
    together with a repo that lists that version, whatever order the
    map iteration takes.  Priority is no part of [RepoMap] and plays
    no role.  The outcome 1 of [Compare] is assumed irreflexive and
    transitive, and every listed spec has a version. *)
Theorem FindRepoLatest_highest_version (pi : PackageInfo.t)
        (rm : gmap string (list RepoSpec.t)) (archs : list string) :
  PackageInfo.Arch pi <> "" ->
  versioned rm ->
  (exists r s, candidate rm (PackageInfo.Name pi) (PackageInfo.Arch pi) r s) ->
  exists v r s,
    FindRepoLatest Compare range pi rm archs = Ret (v, r, PackageInfo.Arch pi, None)
    /\ candidate rm (PackageInfo.Name pi) (PackageInfo.Arch pi) r s
    /\ PkgSpec.Version s = v
    /\ (forall r' s', candidate rm (PackageInfo.Name pi) (PackageInfo.Arch pi) r' s' ->
                      ~ higher Compare (PkgSpec.Version s') v).
Proof.
  intros Harch Hver Hcand. unfold FindRepoLatest.
  apply String.eqb_neq in Harch. rewrite Harch. cbn [negb].
  rewrite (versioned_derefs_ok _ Hver), gather_empty.
  apply collect_nonempty in Hcand as E. rewrite E. cbn [negb].
  destruct Hcand as (r0 & s0 & Hc0).
  destruct (latest_spec Compare higher_irrefl higher_trans
              (range (collect (PackageInfo.Name pi) (PackageInfo.Arch pi) rm)))
    as (v & r & p & -> & Hp & Hv & Hmax).
  { eapply flat_nonempty. apply flat_range_candidate. exact Hc0. }
  { apply Forall_forall. intros [r' s'] Hin%flat_range_candidate.
    simpl. eapply versioned_candidate; eauto. }
  exists v, r, p. split_and!; auto.
  - by apply flat_range_candidate.
  - intros r' s' Hc%flat_range_candidate. apply (Hmax _ Hc).
Qed.
End FindRepoLatest_props.
Section numCompare_props.
Import client.

Lemma numCompare_higher a b :
  higher numCompare a b <->
  exists x y, parseNum a = Some x /\ parseNum b = Some y /\ (y < x)%N.
Proof.
  unfold higher, numCompare.
  destruct (parseNum a) as [x|], (parseNum b) as [y|]; simpl;
    try (split; [discriminate|intros (? & ? & ? & ? & ?); discriminate]).
  destruct (N.compare_spec x y) as [E|E|E]; simpl; split; try discriminate;
    try (intros (x' & y' & Hx & Hy & Hlt); injection Hx as <-; injection Hy as <-; lia).
  intros _. exists x, y. auto.
Qed.

Lemma numCompare_irrefl a : ~ higher numCompare a a.
Proof.
  intros (x & y & Hx & Hy & Hlt)%numCompare_higher.
  rewrite Hx in Hy. injection Hy as <-. lia.
Qed.

Lemma numCompare_trans a b c :
  higher numCompare a b -> higher numCompare b c -> higher numCompare a c.
Proof.
  intros (x & y & Hx & Hy & Hlt)%numCompare_higher
         (y' & z & Hy' & Hz & Hlt')%numCompare_higher.
  rewrite Hy in Hy'. injection Hy' as <-.
  apply numCompare_higher. exists x, z. split_and!; auto. lia.
Qed.
End numCompare_props.

Section FindRepoLatest_runs.
Import goolib client repo_priority sample.

Lemma backwards_perm (m : gmap string (list PkgSpec.t)) :
  backwards m ≡ₚ map_to_list m.
Proof. apply reverse_Permutation. Qed.

Lemma candidate_rm0_a : candidate rm0 "p" "noarch" "a" (spec "p" "noarch" "2").
Proof.
  exists [entry "p" "noarch" "2"], (entry "p" "noarch" "2").
  split_and!; try reflexivity. left.
Defined.

Lemma candidate_rm0_b : candidate rm0 "p" "noarch" "b" (spec "p" "noarch" "1").
Proof.
  exists [entry "p" "noarch" "1"; entry "q" "x86_64" "3"], (entry "p" "noarch" "1").
  split_and!; try reflexivity. left.
Defined.

(** C1 (witness): the theorem at a concrete input. *)
Lemma FindRepoLatest_highest_version_witness :
  exists v r s,
    FindRepoLatest numCompare map_to_list (PackageInfo.mk "p" "noarch" "") rm0 []
    = Ret (v, r, "noarch", None)
    /\ candidate rm0 "p" "noarch" r s
    /\ PkgSpec.Version s = v
    /\ (forall r' s', candidate rm0 "p" "noarch" r' s' ->
                      ~ higher numCompare (PkgSpec.Version s') v).
Proof.
  apply (FindRepoLatest_highest_version numCompare map_to_list
           (fun m => reflexivity (map_to_list m))
           numCompare_irrefl numCompare_trans
           (PackageInfo.mk "p" "noarch" "") rm0 []).
  - discriminate.
  - compute_done.
  - exists "a", (spec "p" "noarch" "2"). exact candidate_rm0_a.
Defined.

Lemma no_candidate_x86_64 :
  forall a', a' ∈ ["x86_64"] -> forall r s, ~ candidate rm0 "p" a' r s.
Proof.
  intros a' ->%list_elem_of_singleton r s Hc.
  assert ((len (collect "p" "x86_64" rm0) =? 0)%nat = false) as E.
  { apply collect_nonempty. eauto. }
  vm_compute in E. discriminate.
Qed.

(** C7 (witness): the theorem at a concrete input. *)
Lemma FindRepoLatest_first_arch_witness :
  exists v r s,
    FindRepoLatest numCompare backwards (PackageInfo.mk "p" "" "") rm0
                   ["x86_64"; "noarch"]
    = Ret (v, r, "noarch", None)
    /\ (v, r) = latest numCompare (backwards (collect "p" "noarch" rm0))
    /\ candidate rm0 "p" "noarch" r s /\ PkgSpec.Version s = v.
Proof.
  apply (proj1 (FindRepoLatest_first_arch numCompare backwards backwards_perm
                  (PackageInfo.mk "p" "" "") rm0 ["x86_64"; "noarch"]
                  eq_refl eq_refl)
               ["x86_64"] "noarch" [] eq_refl no_candidate_x86_64).
  exists "a", (spec "p" "noarch" "2"). exact candidate_rm0_a.
Defined.

(** C1 (counterexample): repo "b" has the higher priority and lists
    p 1, repo "a" lists p 2; [FindRepoLatest] answers with version 2
    of repo "a", which is not the repo of highest priority.  And when
    "a" and "b" both list p 1, the repo returned is "a" under one
    iteration order and "b" under the other: the tie is not broken
    by the URL. *)
Lemma FindRepoLatest_not_by_priority :
  (FindRepoLatest numCompare map_to_list (PackageInfo.mk "p" "noarch" "")
                  (packages repos0) []
   = Ret ("2", "a", "noarch", None)
   /\ ~ highest_priority repos0 "p" "noarch" "a")
  /\ (FindRepoLatest numCompare map_to_list (PackageInfo.mk "p" "noarch" "") rm_tie []
      = Ret ("1", "a", "noarch", None)
      /\ FindRepoLatest numCompare backwards (PackageInfo.mk "p" "noarch" "") rm_tie []
         = Ret ("1", "b", "noarch", None)).
Proof.
  split; [split|split]; try (vm_compute; reflexivity).
  intros H.
  destruct (H "b" (Repo.mk 1500 [entry "p" "noarch" "1"; entry "q" "x86_64" "3"])
              (spec "p" "noarch" "1")) as (R & HR & Hle).
  - reflexivity.
  - exact candidate_rm0_b.
  - vm_compute in HR. injection HR as <-. simpl in Hle. lia.
Qed.
End FindRepoLatest_runs.
Section io_props.
Lemma io_bind_emit {E B : Type} (e : E) (k : unit -> io E B) :
  io_bind (emit e) k = (e :: fst (k tt), snd (k tt)).
Proof. unfold io_bind, emit. by destruct (k tt). Qed.

Lemma io_bind_ret {E A B : Type} (a : A) (k : A -> io E B) :
  io_bind (io_ret a) k = k a.
Proof. unfold io_bind, io_ret. by destruct (k a). Qed.

Lemma io_bind_pair {E A B : Type} (t : list E) (a : A) (k : A -> io E B) :
  io_bind (t, Ret a) k = (t ++ fst (k a), snd (k a)).
Proof. unfold io_bind. by destruct (k a). Qed.
End io_props.

Section index_props.
Import goolib client index.
Variable w : World.
Variable SplitGCSUrl : string -> bool * string * string.

Lemma gets_app t t' : gets (t ++ t') = gets t ++ gets t'.
Proof. unfold gets. apply omap_app. Qed.

Lemma decode_outcome index cf :
  exists t r, decode w index cf = (t, Ret r) /\ gets t = [].
Proof.
  unfold decode. destruct (newDecoder w index) as [err|rd]; [by eexists _, _|].
  destruct (decode_loop _ _ _) as [err|m]; [by eexists _, _|].
  cbn. destruct (Create w cf); [by eexists _, _|].
  cbn. destruct (Write w cf); by eexists _, _.
Qed.

Lemma unmarshalRepoPackagesHTTP_requests (p cf proxyServer : string) :
  proxy_ok w proxyServer = true ->
  exists t r,
    unmarshalRepoPackagesHTTP w p cf proxyServer = (t, Ret r)
    /\ gets t = (p +:+ "/index.gz")
                  :: (if gz_not_200 w proxyServer p then [p +:+ "/index"] else [])
    /\ (gz_not_200 w proxyServer p = true ->
        plain_not_200 w proxyServer p = true ->
        exists e, r = ([], Some e)).
Proof.
  intros Hproxy. unfold unmarshalRepoPackagesHTTP.
  match goal with
  | |- context [io_bind ?m _] =>
      assert (m = io_ret tt) as ->
  end.
  { unfold proxy_ok in Hproxy.
    destruct (proxyServer =? ""); simpl in Hproxy; cbn [negb]; [done|].
    by destruct (url_Parse w proxyServer). }
  rewrite io_bind_ret.
  unfold gz_not_200, plain_not_200.
  destruct (http_Get w proxyServer (p +:+ "/index.gz")) as [err|res].
  - eexists _, _. split; [reflexivity|]. split; [done|]. discriminate.
  - destruct (negb (Response.StatusCode res =? 200)%Z) eqn:E1.
    + destruct (http_Get w proxyServer (p +:+ "/index")) as [err2|res2].
      * eexists _, _. split; [reflexivity|]. split; [done|]. discriminate.
      * destruct (negb (Response.StatusCode res2 =? 200)%Z) eqn:E2.
        -- eexists _, _. split; [reflexivity|]. split; [done|]. eauto.
        -- destruct (decode_outcome (Response.Body res2) cf) as (t & r & Hd & Ht).
           exists ([EvGet proxyServer (p +:+ "/index.gz")]
                     ++ [EvGet proxyServer (p +:+ "/index")] ++ t), r.
           split; [cbn; by rewrite Hd|]. split; [|discriminate].
           rewrite !gets_app, Ht. done.
    + destruct (decode_outcome (Response.Body res) cf) as (t & r & Hd & Ht).
      exists ([EvGet proxyServer (p +:+ "/index.gz")] ++ t), r.
      split; [cbn; by rewrite Hd|]. split; [|discriminate].
      rewrite !gets_app, Ht. done.
Qed.

(** C6: for a repo URL [p] that is not an object-storage URL, with the
    cache file stale or absent, [unmarshalRepoPackages] first requests
    [p/index.gz]; it requests [p/index] next exactly when the first
    request completed with a status other than 200, and requests
    nothing else; and when the second request also completes with a
    status other than 200, it returns an error and no RepoSpec.  (The
    proxy setting is empty or a URL that parses.) *)
Theorem unmarshalRepoPackages_gz_then_plain (p cacheDir : string) (cacheLife : Z)
        (proxyServer : string) :
  cache_stale_or_absent w p cacheDir cacheLife = true ->
  fst (fst (SplitGCSUrl p)) = false ->
  proxy_ok w proxyServer = true ->
  exists t r,
    unmarshalRepoPackages w SplitGCSUrl p cacheDir cacheLife proxyServer = (t, Ret r)
    /\ gets t = (p +:+ "/index.gz")
                  :: (if gz_not_200 w proxyServer p then [p +:+ "/index"] else [])
    /\ (gz_not_200 w proxyServer p = true ->
        plain_not_200 w proxyServer p = true ->
        exists e, r = ([], Some e)).
Proof.
  intros Hcache Hgcs Hproxy.
  unfold unmarshalRepoPackages, cache_stale_or_absent in *.
  destruct (SplitGCSUrl p) as [[isGCS bucket] object]. simpl in Hgcs. subst isGCS.
  destruct (Stat w _) as [since|e|e]; [| |discriminate].
  - apply negb_true_iff in Hcache. rewrite Hcache.
    by apply unmarshalRepoPackagesHTTP_requests.
  - by apply unmarshalRepoPackagesHTTP_requests.
Qed.

(** C10: with a proxy server configured, for an object-storage
    ([gs://]) repo URL whose cache file is stale or absent,
    [unmarshalRepoPackages] returns an empty list and a nil error,
    and does not touch the network or the cache. *)
Theorem unmarshalRepoPackages_gcs_proxy_skipped (p cacheDir : string) (cacheLife : Z)
        (proxyServer : string) :
  proxyServer <> "" ->
  fst (fst (SplitGCSUrl p)) = true ->
  cache_stale_or_absent w p cacheDir cacheLife = true ->
  unmarshalRepoPackages w SplitGCSUrl p cacheDir cacheLife proxyServer
  = ([], Ret ([], None)).
Proof.
  intros Hproxy Hgcs Hcache.
  unfold unmarshalRepoPackages, cache_stale_or_absent in *.
  destruct (SplitGCSUrl p) as [[isGCS bucket] object]. simpl in Hgcs. subst isGCS.
  apply String.eqb_neq in Hproxy.
  unfold unmarshalRepoPackagesGCS. rewrite Hproxy. cbn [negb].
  destruct (Stat w _) as [since|e|e]; [| |discriminate].
  - apply negb_true_iff in Hcache. by rewrite Hcache.
  - done.
Qed.
End index_props.
Section decode_props.
Import goolib client index.

Lemma decode_array_lookup slots arr i j :
  arr !! i = Some j ->
  decode_array slots arr !! i
  = Some (unmarshalRepoSpec (default RepoSpec.zero (slots !! i)) j).
Proof.
  revert slots i. induction arr as [|a arr IH]; intros slots i Hi; [done|].
  destruct i as [|i]; simpl in Hi.
  - injection Hi as ->. by destruct slots.
  - destruct slots as [|o slots]; simpl; rewrite (IH _ _ Hi); [|done].
    by rewrite lookup_nil.
Qed.

Lemma decode_array_length slots arr :
  length arr <= length (decode_array slots arr).
Proof.
  revert slots. induction arr as [|a arr IH]; intros slots; simpl; [lia|].
  destruct slots as [|o slots]; simpl.
  - specialize (IH []). lia.
  - specialize (IH slots). lia.
Qed.

Lemma decode_array_nil arr :
  decode_array [] arr = unmarshalRepoSpec RepoSpec.zero <$> arr.
Proof. induction arr as [|a arr IH]; [done|]. simpl. by rewrite IH. Qed.

Lemma elems_Decode reuse m arr :
  length (elems (Decode reuse m (JTopArray arr))) = length arr
  /\ (forall i j, arr !! i = Some j ->
                 exists old,
                   elems (Decode reuse m (JTopArray arr)) !! i
                   = Some (unmarshalRepoSpec old j)).
Proof.
  destruct arr as [|a arr]; [split; [done|intros i j Hi; by rewrite lookup_nil in Hi]|].
  unfold Decode, elems. cbn [slots slen].
  set (backing := if reuse then slots m else []).
  split.
  - rewrite length_take. pose proof (decode_array_length backing (a :: arr)). lia.
  - intros i j Hi. eexists.
    rewrite lookup_take_lt; [|by eapply lookup_lt_Some].
    by apply decode_array_lookup.
Qed.

Lemma elems_Decode_nil reuse arr :
  elems (Decode reuse nil_slice (JTopArray arr))
  = unmarshalRepoSpec RepoSpec.zero <$> arr.
Proof.
  destruct arr as [|a arr]; [done|].
  unfold Decode, elems. cbn [slots slen nil_slice].
  replace (if reuse then [] else []) with (@nil RepoSpec.t) by by destruct reuse.
  rewrite decode_array_nil, <- (length_fmap (unmarshalRepoSpec RepoSpec.zero)).
  apply firstn_all.
Qed.

Lemma decode_loop_app reuse m vals vals' :
  decode_loop reuse m (vals ++ vals')
  = match decode_loop reuse m vals with
    | inl e => inl e
    | inr m' => decode_loop reuse m' vals'
    end.
Proof.
  revert m. induction vals as [|[e|v] vals IH]; intros m; simpl; auto.
Qed.

Lemma decode_loop_arrays reuse m arrs :
  exists m', decode_loop reuse m ((fun a => inr (JTopArray a)) <$> arrs) = inr m'.
Proof.
  revert m. induction arrs as [|a arrs IH]; intros m; simpl; eauto.
Qed.

Variable w : World.

(** C5 (amended): for a payload of a supported content type that
    consists of one or more top-level JSON arrays, with a writable
    cache file, [decode] succeeds; every [Decode] overwrites the slice,
    so the list returned has the length of the last array, and its
    [i]-th element is the [i]-th object of the last array decoded into
    the value that slot held.  Only for a single array is the result
    that array decoded. *)
Theorem decode_keeps_last_array (index cf : string) (rd : reader)
        (arrs : list (list (option JRepoSpec))) (last : list (option JRepoSpec)) :
  newDecoder w index = inr rd ->
  json_values w rd = (fun a => inr (JTopArray a)) <$> (arrs ++ [last]) ->
  Create w cf = None -> Write w cf = None -> Close w cf = None ->
  exists t m,
    decode w index cf = (t, Ret (m, None))
    /\ length m = length last
    /\ (forall i j, last !! i = Some j ->
                   exists old, m !! i = Some (unmarshalRepoSpec old j))
    /\ (arrs = [] -> m = unmarshalRepoSpec RepoSpec.zero <$> last).
Proof.
  intros Hdec Hvals Hcreate Hwrite Hclose.
  unfold decode. rewrite Hdec, Hvals, fmap_app, decode_loop_app.
  destruct (decode_loop_arrays (json_reuse w) nil_slice arrs) as [m' Hm'].
  rewrite Hm'. cbn [fmap list_fmap decode_loop].
  cbn. rewrite Hcreate. cbn. rewrite Hwrite. cbn. rewrite Hclose.
  eexists _, _. split; [reflexivity|].
  destruct (elems_Decode (json_reuse w) m' last) as [Hlen Hlookup].
  split_and!; auto.
  intros ->. simpl in Hm'. injection Hm' as <-. apply elems_Decode_nil.
Qed.
End decode_props.

Section index_runs.
Import goolib client index sample.

(** C5 (witness): the theorem at a concrete input. *)
Lemma decode_keeps_last_array_witness :
  exists t m,
    decode (w_two true) "two arrays" "cache/repo.rs" = (t, Ret (m, None))
    /\ length m = 1
    /\ (forall i j, [jB] !! i = Some j ->
                   exists old, m !! i = Some (unmarshalRepoSpec old j))
    /\ ([[jA]] = [] -> m = unmarshalRepoSpec RepoSpec.zero <$> [jB]).
Proof.
  apply (decode_keeps_last_array (w_two true) "two arrays" "cache/repo.rs"
           (BytesReader "two arrays") [[jA]] [jB]); reflexivity.
Defined.

(** C5 (counterexample): for a payload of two arrays, the first with
    the object for a and the second with the object for b, [decode]
    returns the entry for b alone, not the concatenation of the two
    arrays; the entry for a is lost. *)
Lemma decode_drops_earlier_array :
  snd (decode (w_two true) "two arrays" "cache/repo.rs") = Ret ([rsB], None)
  /\ snd (decode (w_two false) "two arrays" "cache/repo.rs") = Ret ([rsB], None)
  /\ concat_arrays [[jA]; [jB]] = [rsA; rsB]
  /\ [rsB] <> concat_arrays [[jA]; [jB]].
Proof. split_and!; try (vm_compute; reflexivity). vm_compute. discriminate. Qed.

(** C6 (witness): the theorem at a concrete input. *)
Lemma unmarshalRepoPackages_gz_then_plain_witness :
  exists t r,
    unmarshalRepoPackages (w_two false) goolib.SplitGCSUrl
                          "https://host/repo" "cache" 180 "" = (t, Ret r)
    /\ gets t = ("https://host/repo" +:+ "/index.gz")
                  :: (if gz_not_200 (w_two false) "" "https://host/repo"
                      then ["https://host/repo" +:+ "/index"] else [])
    /\ (gz_not_200 (w_two false) "" "https://host/repo" = true ->
        plain_not_200 (w_two false) "" "https://host/repo" = true ->
        exists e, r = ([], Some e)).
Proof.
  apply (unmarshalRepoPackages_gz_then_plain (w_two false) goolib.SplitGCSUrl
           "https://host/repo" "cache" 180 ""); reflexivity.
Defined.

(** C10 (witness): the theorem at a concrete input. *)
Lemma unmarshalRepoPackages_gcs_proxy_skipped_witness :
  unmarshalRepoPackages (w_two false) goolib.SplitGCSUrl
                        "gs://bucket/repo" "cache" 180 "http://proxy:3128"
  = ([], Ret ([], None)).
Proof.
  apply (unmarshalRepoPackages_gcs_proxy_skipped (w_two false) goolib.SplitGCSUrl
           "gs://bucket/repo" "cache" 180 "http://proxy:3128");
    [discriminate|reflexivity|reflexivity].
Defined.
End index_runs.
Section googetdb_write.
Import goolib client googetdb.
Variable marshalPkgSpec : PkgSpec.t -> index.JPkgSpec.

Lemma addPkg_ok env db ps :
  failure env = NoFault -> has_spec ps ->
  addPkg marshalPkgSpec env db ps = Ret (committed marshalPkgSpec env db ps, None).
Proof.
  intros Hf [spec Hs]. unfold addPkg, committed. by rewrite Hs, Hf.
Qed.

Lemma addPkg_fails env db ps e :
  fault_error (failure env) = Some e -> has_spec ps ->
  addPkg marshalPkgSpec env db ps = Ret (db, Some e).
Proof.
  intros Hf [spec Hs]. unfold addPkg. rewrite Hs.
  destruct (failure env); simpl in Hf; try discriminate; by injection Hf as ->.
Qed.

Lemma WriteStateToDB_from_app env i db pre rest :
  Forall has_spec pre ->
  (forall k, k < length pre -> failure (env (i + k)) = NoFault) ->
  WriteStateToDB_from marshalPkgSpec env i db (pre ++ rest)
  = WriteStateToDB_from marshalPkgSpec env (i + length pre)
      (committed_all marshalPkgSpec env i db pre) rest.
Proof.
  revert i db. induction pre as [|ps pre IH]; intros i db Hspec Hok.
  - simpl. by rewrite Nat.add_0_r.
  - apply Forall_cons in Hspec as [Hps Hpre]. cbn [app WriteStateToDB_from].
    rewrite addPkg_ok; [|by rewrite <- (Nat.add_0_r i); apply Hok; simpl; lia|done].
    rewrite IH; [|done|].
    + cbn [committed_all length]. f_equal. lia.
    + intros k Hk. replace (S i + k) with (i + S k) by lia. apply Hok. simpl. lia.
Qed.

Lemma insert_or_replace_key db n v a j :
  exists r, r ∈ rows (insert_or_replace db n v a j)
            /\ Row.PkgName r = n /\ Row.PkgArch r = a.
Proof.
  eexists. split; [|split]; [apply elem_of_app; right; left|done|done].
Qed.

Lemma insert_or_replace_keeps_key db n v a j n' a' :
  (exists r, r ∈ rows db /\ Row.PkgName r = n' /\ Row.PkgArch r = a') ->
  exists r, r ∈ rows (insert_or_replace db n v a j)
            /\ Row.PkgName r = n' /\ Row.PkgArch r = a'.
Proof.
  intros (r & Hr & Hn & Ha).
  destruct (same_key n a r) eqn:E.
  - unfold same_key in E. apply andb_true_iff in E as [En Ea].
    apply String.eqb_eq in En, Ea. subst.
    apply insert_or_replace_key.
  - exists r. split; [|done]. apply elem_of_app. left.
    apply list_elem_of_filter. done.
Qed.

Lemma committed_keeps_key env db ps n' a' :
  (exists r, r ∈ rows db /\ Row.PkgName r = n' /\ Row.PkgArch r = a') ->
  exists r, r ∈ rows (committed marshalPkgSpec env db ps)
            /\ Row.PkgName r = n' /\ Row.PkgArch r = a'.
Proof.
  intros H. unfold committed. destruct (PackageState.PackageSpec ps); [|done].
  by apply insert_or_replace_keeps_key.
Qed.

Lemma committed_all_keeps_key env i db l n' a' :
  (exists r, r ∈ rows db /\ Row.PkgName r = n' /\ Row.PkgArch r = a') ->
  exists r, r ∈ rows (committed_all marshalPkgSpec env i db l)
            /\ Row.PkgName r = n' /\ Row.PkgArch r = a'.
Proof.
  revert i db. induction l as [|ps l IH]; intros i db H; [done|].
  simpl. apply IH. by apply committed_keeps_key.
Qed.

Lemma committed_all_has_key env i db l ps spec :
  ps ∈ l -> PackageState.PackageSpec ps = Some spec ->
  exists r, r ∈ rows (committed_all marshalPkgSpec env i db l)
            /\ Row.PkgName r = PkgSpec.Name spec /\ Row.PkgArch r = PkgSpec.Arch spec.
Proof.
  revert i db. induction l as [|x l IH]; intros i db Hin Hs; [inversion Hin|].
  apply elem_of_cons in Hin as [->|Hin]; simpl.
  - apply committed_all_keeps_key. unfold committed. rewrite Hs.
    apply insert_or_replace_key.
  - by apply IH.
Qed.

(** C2 (amended): [WriteStateToDB] upserts the entries in order, each
    in a transaction of its own.  When the upsert of an entry fails,
    the error is returned, that entry and the later ones are not
    written, and the entries before it stay committed: the table is
    the one that writing the earlier entries alone produces, and it
    has a row for the name and arch of each of them. *)
Theorem WriteStateToDB_commits_each_entry (env : nat -> Env) (db : Table)
        (pre : list PackageState.t) (s : PackageState.t)
        (post : list PackageState.t) (e : error) :
  Forall has_spec pre -> has_spec s ->
  (forall k, k < length pre -> failure (env k) = NoFault) ->
  fault_error (failure (env (length pre))) = Some e ->
  WriteStateToDB marshalPkgSpec env db (pre ++ s :: post)
  = Ret (committed_all marshalPkgSpec env 0 db pre, Some e)
  /\ WriteStateToDB marshalPkgSpec env db pre
     = Ret (committed_all marshalPkgSpec env 0 db pre, None)
  /\ (forall ps spec,
         ps ∈ pre -> PackageState.PackageSpec ps = Some spec ->
         exists r, r ∈ rows (committed_all marshalPkgSpec env 0 db pre)
                   /\ Row.PkgName r = PkgSpec.Name spec
                   /\ Row.PkgArch r = PkgSpec.Arch spec).
Proof.
  intros Hpre Hs Hok Hfail. unfold WriteStateToDB. split_and!.
  - rewrite WriteStateToDB_from_app by done. cbn [WriteStateToDB_from].
    by rewrite (addPkg_fails _ _ _ e).
  - rewrite <- (app_nil_r pre) at 1. by rewrite WriteStateToDB_from_app.
  - intros ps spec. apply committed_all_has_key.
Qed.
End googetdb_write.

Section googetdb_remove.
Import goolib client googetdb.

Lemma same_key_false name arch r :
  same_key name arch r = false <-> ~ (Row.PkgName r = name /\ Row.PkgArch r = arch).
Proof.
  unfold same_key. rewrite andb_false_iff, !String.eqb_neq.
  split; [intros [H|H] [? ?]; done|].
  intros H. destruct (decide (Row.PkgName r = name)); [right|left]; naive_solver.
Qed.

Lemma delete_where_idem db name arch :
  delete_where (delete_where db name arch) name arch = delete_where db name arch.
Proof.
  unfold delete_where. cbn [rows seq]. f_equal.
  induction (rows db) as [|r l IH]; [done|].
  rewrite filter_cons. destruct (decide (same_key name arch r = false)) as [E|E].
  - rewrite filter_cons, decide_True by done. by rewrite IH.
  - done.
Qed.

(** C4 (amended): for a name and an arch without quote characters,
    [RemovePkg(name, arch)] deletes exactly the rows whose [PkgName]
    is [name] and whose [PkgArch] is [arch], also when [arch] is empty
    (then only rows with an empty [PkgArch] go); a second identical
    call succeeds and leaves the table unchanged. *)
Theorem RemovePkg_exact_key (db : Table) (packageName arch : string) :
  literal_safe packageName = true ->
  literal_safe arch = true ->
  exists db',
    RemovePkg None db packageName arch = Some (db', None)
    /\ (forall r, r ∈ rows db' <->
                  r ∈ rows db
                  /\ ~ (Row.PkgName r = packageName /\ Row.PkgArch r = arch))
    /\ seq db' = seq db
    /\ RemovePkg None db' packageName arch = Some (db', None).
Proof.
  intros Hn Ha. unfold RemovePkg. rewrite Hn, Ha. cbn [andb].
  eexists. split; [reflexivity|]. split_and!.
  - intros r. unfold delete_where. cbn [rows].
    rewrite list_elem_of_filter, same_key_false. tauto.
  - done.
  - by rewrite delete_where_idem.
Qed.
End googetdb_remove.

Section googetdb_fetch.
Import goolib client googetdb.
Variable scan : list Row.t -> list Row.t.
Hypothesis scan_perm : forall l, scan l ≡ₚ l.

Lemma fetch_loop_snoc cursor b st :
  fetch_loop (cursor ++ [b]) st = fst (Unmarshal b (fetch_loop cursor st)).
Proof. unfold fetch_loop. by rewrite fold_left_app. Qed.

Lemma selectSpecQuery_none db pkgName :
  (forall r, r ∈ rows db -> Row.PkgName r <> pkgName) ->
  selectSpecQuery scan db pkgName = [].
Proof.
  intros Hnone. unfold selectSpecQuery.
  assert (filter (fun r => (Row.PkgName r =? pkgName) = true) (rows db) = []) as ->.
  { induction (rows db) as [|r l IH]; [done|].
    rewrite filter_cons, decide_False.
    - apply IH. intros r' Hr'. apply Hnone. by right.
    - rewrite String.eqb_eq. apply Hnone. left. }
  specialize (scan_perm []). apply Permutation_nil_r in scan_perm.
  by rewrite scan_perm.
Qed.

(** C3 (amended): when the query succeeds, [FetchPkg(name)] returns
    one PackageState and a nil error.  With no row of that name it is
    the empty PackageState.  Otherwise every row of that name is
    decoded, in the order the query delivers them, into the same
    variable, so that the last row delivered decides: the name,
    version and arch that its JSON sets are those of the result.  No
    versions are compared. *)
Theorem FetchPkg_last_row_wins (db : Table) (pkgName : string) :
  exists ps,
    FetchPkg scan None db pkgName = Ret (ps, None)
    /\ ((forall r, r ∈ rows db -> Row.PkgName r <> pkgName) ->
        ps = PackageState.zero)
    /\ (forall pre o,
           selectSpecQuery scan db pkgName = pre ++ [Object o] ->
           ps = fst (Unmarshal (Object o) (fetch_loop pre PackageState.zero))
           /\ (forall j n v a,
                  jPackageSpec o = index.JObject j ->
                  index.jName j = Some n -> index.jVersion j = Some v ->
                  index.jArch j = Some a ->
                  exists spec,
                    PackageState.PackageSpec ps = Some spec
                    /\ PkgSpec.Name spec = n /\ PkgSpec.Version spec = v
                    /\ PkgSpec.Arch spec = a)).
Proof.
  eexists. split; [reflexivity|]. split.
  - intros Hnone. by rewrite selectSpecQuery_none.
  - intros pre o Hq. rewrite Hq, fetch_loop_snoc. split; [done|].
    intros j n v a Hj Hn Hv Ha. cbn [Unmarshal fst PackageState.PackageSpec].
    rewrite Hj. eexists. split; [reflexivity|].
    unfold index.unmarshalPkgSpec. cbn. by rewrite Hn, Hv, Ha.
Qed.
End googetdb_fetch.
Section googetdb_runs.
Import goolib client googetdb sample.

(** C2 (witness): the theorem at a concrete input. *)
Lemma WriteStateToDB_commits_each_entry_witness :
  WriteStateToDB marshalAll second_fails empty_table
                 ([state "a" "noarch" "1"] ++ state "b" "noarch" "2" :: [])
  = Ret (committed_all marshalAll second_fails 0 empty_table [state "a" "noarch" "1"],
         Some "disk I/O error")
  /\ WriteStateToDB marshalAll second_fails empty_table [state "a" "noarch" "1"]
     = Ret (committed_all marshalAll second_fails 0 empty_table
              [state "a" "noarch" "1"], None)
  /\ (forall ps spec,
         ps ∈ [state "a" "noarch" "1"] -> PackageState.PackageSpec ps = Some spec ->
         exists r, r ∈ rows (committed_all marshalAll second_fails 0 empty_table
                               [state "a" "noarch" "1"])
                   /\ Row.PkgName r = PkgSpec.Name spec
                   /\ Row.PkgArch r = PkgSpec.Arch spec).
Proof.
  apply (WriteStateToDB_commits_each_entry marshalAll second_fails empty_table
           [state "a" "noarch" "1"] (state "b" "noarch" "2") [] "disk I/O error").
  - repeat constructor. by eexists.
  - by eexists.
  - intros k Hk. simpl in Hk. by replace k with 0 by lia.
  - reflexivity.
Defined.

(** C2 (counterexample): writing the states of a and b into an empty
    table, with the upsert of b failing, returns the error and leaves
    the row of a in the table: the table is not as it was before the
    call. *)
Lemma WriteStateToDB_keeps_committed_prefix :
  exists db',
    WriteStateToDB marshalAll second_fails empty_table
                   [state "a" "noarch" "1"; state "b" "noarch" "2"]
    = Ret (db', Some "disk I/O error")
    /\ Row.PkgName <$> rows db' = ["a"]
    /\ db' <> empty_table.
Proof.
  eexists. split; [vm_compute; reflexivity|]. split; [reflexivity|discriminate].
Qed.

(** C4 (witness): the theorem at a concrete input. *)
Lemma RemovePkg_exact_key_witness :
  exists db',
    RemovePkg None two_archs "p" "arm64" = Some (db', None)
    /\ (forall r, r ∈ rows db' <->
                  r ∈ rows two_archs
                  /\ ~ (Row.PkgName r = "p" /\ Row.PkgArch r = "arm64"))
    /\ seq db' = seq two_archs
    /\ RemovePkg None db' "p" "arm64" = Some (db', None).
Proof.
  apply (RemovePkg_exact_key two_archs "p" "arm64"); reflexivity.
Defined.

(** C4 (counterexample): with rows for p on arm64 and on x86_64,
    [RemovePkg("p", "")] succeeds and deletes nothing; both rows of
    name p remain. *)
Lemma RemovePkg_empty_arch_keeps_rows :
  RemovePkg None two_archs "p" "" = Some (two_archs, None)
  /\ Row.PkgName <$> rows two_archs = ["p"; "p"].
Proof. split; vm_compute; reflexivity. Qed.

Lemma by_rowid_perm (l : list Row.t) : by_rowid l ≡ₚ l.
Proof. reflexivity. Qed.

(** C3 (witness): the theorem at a concrete input. *)
Lemma FetchPkg_last_row_wins_witness :
  exists ps,
    FetchPkg by_rowid None two_archs "p" = Ret (ps, None)
    /\ ((forall r, r ∈ rows two_archs -> Row.PkgName r <> "p") ->
        ps = PackageState.zero)
    /\ (forall pre o,
           selectSpecQuery by_rowid two_archs "p" = pre ++ [Object o] ->
           ps = fst (Unmarshal (Object o) (fetch_loop pre PackageState.zero))
           /\ (forall j n v a,
                  jPackageSpec o = index.JObject j ->
                  index.jName j = Some n -> index.jVersion j = Some v ->
                  index.jArch j = Some a ->
                  exists spec,
                    PackageState.PackageSpec ps = Some spec
                    /\ PkgSpec.Name spec = n /\ PkgSpec.Version spec = v
                    /\ PkgSpec.Arch spec = a)).
Proof. exact (FetchPkg_last_row_wins by_rowid by_rowid_perm two_archs "p"). Defined.

(** C3 (counterexample): with rows p 2 on arm64 and p 1 on x86_64,
    [FetchPkg("p")] returns the state of p 1 on x86_64, by rowid
    order and by arch order alike: neither the row of the greatest
    version nor the first row by arch. *)
Lemma FetchPkg_not_greatest_version :
  FetchPkg by_rowid None two_archs "p" = Ret (state "p" "x86_64" "1", None)
  /\ FetchPkg by_arch None two_archs "p" = Ret (state "p" "x86_64" "1", None)
  /\ versions_of two_archs "p" = ["2"; "1"]
  /\ Row.PkgArch <$> by_arch (rows two_archs) = ["arm64"; "x86_64"]
  /\ higher numCompare "2" "1".
Proof. split_and!; vm_compute; reflexivity. Qed.
End googetdb_runs.

Section verify_props.
Import goolib client verify.
Variable w : World.

Ltac in_trace H :=
  repeat (first [ apply elem_of_nil in H; contradiction
                | apply elem_of_cons in H as [H|H]; [try discriminate|] ]).

Ltac run_step :=
  first
    [ rewrite io_bind_emit
    | rewrite io_bind_ret
    | rewrite io_bind_pair
    | progress cbn [fst snd io_ret app]
    | match goal with
      | |- context [match ?x with _ => _ end] =>
          lazymatch x with
          | context [match _ with _ => _ end] => fail
          | _ => destruct x eqn:?
          end
      end ].

Lemma RunVerifyCommand_trace (ps : PackageState.t) (proxyServer : string) dir err :
  EvVerify true dir (Some err) ∈ fst (RunVerifyCommand w ps proxyServer) ->
  snd (RunVerifyCommand w ps proxyServer) = Ret (false, None).
Proof.
  unfold RunVerifyCommand.
  repeat run_step; cbn [fst snd io_ret]; intros Hin; in_trace Hin; try done;
    try congruence.
Qed.

(** C9: whenever the verify script was run on the package extracted
    anew and did not succeed, [RunVerifyCommand] returns [false]
    together with a nil error. *)
Theorem RunVerifyCommand_failure_not_fatal (ps : PackageState.t) (proxyServer : string) :
  reextracted_verify_failed (fst (RunVerifyCommand w ps proxyServer)) ->
  snd (RunVerifyCommand w ps proxyServer) = Ret (false, None).
Proof. intros (dir & err & Hin). by eapply RunVerifyCommand_trace. Qed.
End verify_props.
Section verify_runs.
Import goolib client verify sample.

Lemma verify_fails_after_reextract :
  reextracted_verify_failed (fst (RunVerifyCommand w_verify verified_state "")).
Proof.
  exists "cache/p.noarch.1", "exit status 1". vm_compute.
  do 4 apply list_elem_of_further. apply list_elem_of_here.
Defined.

(** C9 (witness): the theorem at a concrete input. *)
Lemma RunVerifyCommand_failure_not_fatal_witness :
  reextracted_verify_failed (fst (RunVerifyCommand w_verify verified_state ""))
  /\ snd (RunVerifyCommand w_verify verified_state "") = Ret (false, None).
Proof.
  split; [exact verify_fails_after_reextract|].
  exact (RunVerifyCommand_failure_not_fatal w_verify verified_state ""
           verify_fails_after_reextract).
Defined.
End verify_runs.

Section GooGetState_props.
Import goolib client GooGetState.

Lemma first_match_none s pi i :
  (forall ps, ps ∈ s -> PackageState.Match ps pi = Ret false) ->
  first_match s pi i = Ret None.
Proof.
  revert i. induction s as [|ps s IH]; intros i H; [done|].
  simpl. rewrite (H ps) by left. apply IH. intros p Hp. apply H. by right.
Qed.

Lemma first_match_found pre ps post pi i :
  (forall p, p ∈ pre -> PackageState.Match p pi = Ret false) ->
  PackageState.Match ps pi = Ret true ->
  first_match (pre ++ ps :: post) pi i = Ret (Some (i + length pre)).
Proof.
  revert i. induction pre as [|p pre IH]; intros i Hpre Hps; simpl.
  - rewrite Hps. by rewrite Nat.add_0_r.
  - rewrite (Hpre p) by left. rewrite IH; [|intros q Hq; apply Hpre; by right|done].
    do 2 f_equal. lia.
Qed.

(** X1: [Remove] on a state in which nothing matches [pi] returns an
    error and leaves the state as it is. *)
Theorem Remove_no_match (s : list PackageState.t) (pi : PackageInfo.t) :
  (forall ps, ps ∈ s -> PackageState.Match ps pi = Ret false) ->
  exists e, Remove s pi = Ret (s, Some e).
Proof.
  intros H. unfold Remove. rewrite first_match_none by done. eauto.
Qed.

Lemma Remove_match_last pre ps pi :
  (forall p, p ∈ pre -> PackageState.Match p pi = Ret false) ->
  PackageState.Match ps pi = Ret true ->
  Remove (pre ++ [ps]) pi = Ret (pre, None).
Proof.
  intros Hpre Hps. unfold Remove. rewrite first_match_found by done.
  rewrite last_snoc. do 2 f_equal.
  rewrite length_app. simpl. rewrite Nat.add_sub.
  rewrite insert_app_r_alt by lia. by rewrite take_app_length.
Qed.

Lemma Remove_match_inner pre ps post' l pi :
  (forall p, p ∈ pre -> PackageState.Match p pi = Ret false) ->
  PackageState.Match ps pi = Ret true ->
  Remove (pre ++ ps :: post' ++ [l]) pi = Ret (pre ++ l :: post', None).
Proof.
  intros Hpre Hps. unfold Remove. rewrite first_match_found by done.
  replace (pre ++ ps :: post' ++ [l]) with ((pre ++ ps :: post') ++ [l])
    by by rewrite <- app_assoc.
  rewrite last_snoc. do 2 f_equal.
  rewrite length_app. simpl. rewrite Nat.add_sub.
  rewrite insert_app_l by (rewrite length_app; simpl; lia).
  rewrite take_app_length'; [|by rewrite length_insert].
  rewrite insert_app_r_alt by lia. by rewrite Nat.sub_diag.
Qed.

Lemma Remove_match_perm pre ps post pi :
  (forall p, p ∈ pre -> PackageState.Match p pi = Ret false) ->
  PackageState.Match ps pi = Ret true ->
  exists s', Remove (pre ++ ps :: post) pi = Ret (s', None) /\ s' ≡ₚ pre ++ post.
Proof.
  intros Hpre Hps.
  destruct (decide (post = [])) as [->|Hne].
  - exists pre. rewrite Remove_match_last by done. by rewrite app_nil_r.
  - destruct (exists_last Hne) as (post' & l & ->).
    exists (pre ++ l :: post'). rewrite Remove_match_inner by done.
    split; [done|].
    apply Permutation_app_head. by rewrite (Permutation_app_comm post' [l]).
Qed.

(** X2: [Remove] takes out the first state that matches [pi] and no
    other: what is left is a permutation of the other states.  The
    order is not kept: the last state moves into the place of the one
    removed (and when the match is the last state, the rest is
    untouched). *)
Theorem Remove_first_match (pre : list PackageState.t) (ps : PackageState.t)
        (post : list PackageState.t) (pi : PackageInfo.t) :
  (forall p, p ∈ pre -> PackageState.Match p pi = Ret false) ->
  PackageState.Match ps pi = Ret true ->
  exists s',
    Remove (pre ++ ps :: post) pi = Ret (s', None)
    /\ s' ≡ₚ pre ++ post
    /\ (post = [] -> s' = pre)
    /\ (forall post' l, post = post' ++ [l] -> s' = pre ++ l :: post').
Proof.
  intros Hpre Hps.
  destruct (decide (post = [])) as [->|Hne].
  - exists pre. rewrite Remove_match_last by done. rewrite app_nil_r.
    split_and!; auto. intros post' l Hl. by destruct post'.
  - destruct (exists_last Hne) as (post' & l & ->).
    exists (pre ++ l :: post'). rewrite Remove_match_inner by done.
    split_and!; auto.
    + apply Permutation_app_head. rewrite (Permutation_app_comm post' [l]). done.
    + intros E. by destruct post'.
    + intros post'' l' Heq. apply app_inj_tail in Heq as [-> ->]. done.
Qed.

(** X3: removing what was just added gives back the state: when
    nothing in [s] matches [pi] and [ps] does, [Remove (Add s ps) pi]
    is [s]. *)
Theorem Add_then_Remove (s : list PackageState.t) (ps : PackageState.t)
        (pi : PackageInfo.t) :
  (forall p, p ∈ s -> PackageState.Match p pi = Ret false) ->
  PackageState.Match ps pi = Ret true ->
  Remove (Add s ps) pi = Ret (s, None).
Proof. intros Hs Hps. unfold Add. by apply Remove_match_last. Qed.

Lemma GetPackageState_found pre ps post pi :
  (forall p, p ∈ pre -> PackageState.Match p pi = Ret false) ->
  PackageState.Match ps pi = Ret true ->
  GetPackageState (pre ++ ps :: post) pi = Ret (ps, None).
Proof.
  intros Hpre Hps. induction pre as [|p pre IH]; simpl.
  - by rewrite Hps.
  - rewrite (Hpre p) by left. apply IH. intros q Hq. apply Hpre. by right.
Qed.

Lemma GetPackageState_none s pi :
  (forall p, p ∈ s -> PackageState.Match p pi = Ret false) ->
  GetPackageState s pi = Ret (PackageState.zero, Some (no_match_error pi "")).
Proof.
  induction s as [|q s IH]; intros H; simpl; [done|].
  rewrite (H q) by left. apply IH. intros p Hp. apply H. by right.
Qed.

(** X4: [GetPackageState] either returns, with a nil error, a state
    of the list that matches [pi], or returns the empty PackageState
    with an error, and then no state of the list matches. *)
Theorem GetPackageState_sound (s : list PackageState.t) (pi : PackageInfo.t)
        (ps : PackageState.t) (err : option error) :
  GetPackageState s pi = Ret (ps, err) ->
  (err = None /\ ps ∈ s /\ PackageState.Match ps pi = Ret true)
  \/ (ps = PackageState.zero /\ is_Some err
      /\ forall p, p ∈ s -> PackageState.Match p pi = Ret false).
Proof.
  induction s as [|p s IH]; simpl.
  - intros H; injection H as <- <-. right. split_and!; eauto. intros p Hp. inversion Hp.
  - destruct (PackageState.Match p pi) as [[|]| |] eqn:E; try discriminate.
    + intros H; injection H as <- <-. left. split_and!; auto. left.
    + intros H. destruct (IH H) as [(-> & Hin & Hm)|(-> & He & Hnone)].
      * left. split_and!; auto. by right.
      * right. split_and!; auto. intros q [->|Hq]%elem_of_cons; auto.
Qed.

(** X5: when exactly one state matches [pi], [GetPackageState] finds
    it, and after [Remove] has succeeded [GetPackageState] on what is
    left reports an error. *)
Theorem Remove_then_GetPackageState (pre : list PackageState.t) (ps : PackageState.t)
        (post : list PackageState.t) (pi : PackageInfo.t) :
  (forall p, p ∈ pre ++ post -> PackageState.Match p pi = Ret false) ->
  PackageState.Match ps pi = Ret true ->
  GetPackageState (pre ++ ps :: post) pi = Ret (ps, None)
  /\ exists s' e,
      Remove (pre ++ ps :: post) pi = Ret (s', None)
      /\ GetPackageState s' pi = Ret (PackageState.zero, Some e).
Proof.
  intros Hnone Hps.
  assert (forall p, p ∈ pre -> PackageState.Match p pi = Ret false) as Hpre.
  { intros p Hp. apply Hnone, elem_of_app. by left. }
  split; [by apply GetPackageState_found|].
  destruct (Remove_match_perm pre ps post pi Hpre Hps) as (s' & -> & Hperm).
  assert (forall p, p ∈ s' -> PackageState.Match p pi = Ret false) as Hs'.
  { intros p Hp. apply Hnone. by rewrite <- Hperm. }
  exists s', (no_match_error pi ""). split; [done|]. by apply GetPackageState_none.
Qed.
End GooGetState_props.
Section lookup_props.
Import goolib client lookup.

(** X6: [FindRepoSpec] either returns, with a nil error, an entry of
    the list whose spec has exactly the name, arch and version of
    [pi] (an empty field of [pi] is no wildcard here), or returns the
    empty RepoSpec with an error, and then no entry of the list is
    that package. *)
Theorem FindRepoSpec_sound (pi : PackageInfo.t) (pl : list RepoSpec.t)
        (p : RepoSpec.t) (err : option error) :
  FindRepoSpec pi pl = Ret (p, err) ->
  (err = None /\ p ∈ pl
   /\ exists ps, RepoSpec.PackageSpec p = Some ps
                 /\ PkgSpec.Name ps = PackageInfo.Name pi
                 /\ PkgSpec.Arch ps = PackageInfo.Arch pi
                 /\ PkgSpec.Version ps = PackageInfo.Ver pi)
  \/ (p = RepoSpec.zero /\ is_Some err
      /\ forall q qs, q ∈ pl -> RepoSpec.PackageSpec q = Some qs ->
                      same_package qs pi = false).
Proof.
  induction pl as [|q pl IH]; simpl.
  - intros H; injection H as <- <-. right. split_and!; eauto.
    intros q qs Hq. inversion Hq.
  - destruct (RepoSpec.PackageSpec q) as [qs|] eqn:Eq; [|discriminate].
    destruct (same_package qs pi) eqn:Es.
    + intros H; injection H as <- <-. left. split_and!; [done|left|].
      exists qs. unfold same_package in Es.
      apply andb_true_iff in Es as [[En Ea]%andb_true_iff Ev].
      apply String.eqb_eq in En, Ea, Ev. auto.
    + intros H. destruct (IH H) as [(-> & Hin & Hps)|(-> & He & Hnone)].
      * left. split_and!; auto. by right.
      * right. split_and!; auto.
        intros q' qs' [->|Hq']%elem_of_cons Hs; [congruence|eauto].
Qed.

Lemma lists_package_spec pi pl :
  Forall (fun p => has_spec p = true) pl ->
  exists b, lists_package pi pl = Ret b
            /\ (b = true <-> exists p ps, p ∈ pl /\ RepoSpec.PackageSpec p = Some ps
                                          /\ same_package ps pi = true).
Proof.
  induction 1 as [|p pl Hp _ (b & IHb & IH)]; simpl.
  - exists false. split; [done|]. split; [done|]. intros (p & ps & Hin & _). inversion Hin.
  - unfold has_spec in Hp. destruct (RepoSpec.PackageSpec p) as [ps|] eqn:Ep; [|done].
    destruct (same_package ps pi) eqn:Es.
    + exists true. split; [done|]. split; [|done]. intros _. exists p, ps.
      split_and!; auto. left.
    + exists b. split; [done|]. rewrite IH. split.
      * intros (q & qs & Hq & Hqs & Hm). exists q, qs. split_and!; auto. by right.
      * intros (q & qs & [->|Hq]%elem_of_cons & Hqs & Hm); [congruence|eauto].
Qed.

Lemma WhatRepo_entries_spec pi (entries : list (string * list RepoSpec.t)) :
  Forall (fun e => Forall (fun p => has_spec p = true) (snd e)) entries ->
  (exists r, WhatRepo_entries pi entries = Ret (r, None)
             /\ exists pl p ps, (r, pl) ∈ entries /\ p ∈ pl
                                /\ RepoSpec.PackageSpec p = Some ps
                                /\ same_package ps pi = true)
  \/ ((exists e, WhatRepo_entries pi entries = Ret ("", Some e))
      /\ forall r pl p ps, (r, pl) ∈ entries -> p ∈ pl ->
                           RepoSpec.PackageSpec p = Some ps ->
                           same_package ps pi = false).
Proof.
  induction 1 as [|[r pl] entries Hpl _ IH]; simpl.
  - right. split; [eauto|]. intros r pl p ps Hin. inversion Hin.
  - simpl in Hpl. destruct (lists_package_spec pi pl Hpl) as (b & -> & Hb).
    destruct b.
    + left. exists r. split; [done|].
      destruct (proj1 Hb eq_refl) as (p & ps & Hp & Hps & Hm).
      exists pl, p, ps. split_and!; auto. left.
    + destruct IH as [(r' & -> & pl' & p & ps & Hin & Hp & Hps & Hm)|[He Hnone]].
      * left. exists r'. split; [done|]. exists pl', p, ps. split_and!; auto. by right.
      * right. split; [done|].
        intros r' pl' p ps [E|Hin]%elem_of_cons Hp Hps.
        -- injection E as -> ->. destruct (same_package ps pi) eqn:Es; [|done].
           assert (false = true) as F; [|done]. apply Hb. eauto.
        -- eauto.
Qed.

Variable range_rm : gmap string (list RepoSpec.t) -> list (string * list RepoSpec.t).
Hypothesis range_rm_perm : forall m, range_rm m ≡ₚ map_to_list m.

Lemma range_rm_elem (rm : gmap string (list RepoSpec.t)) r pl :
  (r, pl) ∈ range_rm rm <-> rm !! r = Some pl.
Proof. rewrite range_rm_perm. apply elem_of_map_to_list. Qed.

Lemma derefs_ok_entries (rm : gmap string (list RepoSpec.t)) :
  derefs_ok rm = true ->
  Forall (fun e => Forall (fun p => has_spec p = true) (snd e)) (range_rm rm).
Proof.
  intros Hok. apply bool_decide_eq_true in Hok.
  apply Forall_forall. intros [r pl] Hin%range_rm_elem. simpl.
  exact (Hok r pl Hin).
Qed.

Lemma WhatRepo_offered (pi : PackageInfo.t) (rm : gmap string (list RepoSpec.t)) r :
  derefs_ok rm = true -> offers rm r pi ->
  exists r', WhatRepo range_rm pi rm = Ret (r', None) /\ offers rm r' pi.
Proof.
  intros Hok (pl & p & ps & Hpl & Hp & Hps & Hm). unfold WhatRepo.
  destruct (WhatRepo_entries_spec pi (range_rm rm) (derefs_ok_entries rm Hok))
    as [(r' & -> & pl' & p' & ps' & Hin & Hp' & Hps' & Hm')|[_ Hnone]].
  - exists r'. split; [done|]. exists pl', p', ps'. split_and!; auto.
    by apply range_rm_elem.
  - rewrite (Hnone r pl p ps) in Hm; [done| |done|done]. by apply range_rm_elem.
Qed.

(** X7: on a map without nil specs and for every iteration order,
    [WhatRepo] returns a repo that lists exactly the package [pi], and
    it returns an error only when no repo of the map lists it. *)
Theorem WhatRepo_finds_offer (pi : PackageInfo.t) (rm : gmap string (list RepoSpec.t)) :
  derefs_ok rm = true ->
  (exists r, WhatRepo range_rm pi rm = Ret (r, None) /\ offers rm r pi)
  \/ ((exists e, WhatRepo range_rm pi rm = Ret ("", Some e))
      /\ forall r, ~ offers rm r pi).
Proof.
  intros Hok. unfold WhatRepo.
  destruct (WhatRepo_entries_spec pi (range_rm rm) (derefs_ok_entries rm Hok))
    as [(r & -> & pl & p & ps & Hin & Hp & Hps & Hm)|[He Hnone]].
  - left. exists r. split; [done|]. exists pl, p, ps. split_and!; auto.
    by apply range_rm_elem.
  - right. split; [done|]. intros r (pl & p & ps & Hpl & Hp & Hps & Hm).
    rewrite (Hnone r pl p ps) in Hm; [done| |done|done]. by apply range_rm_elem.
Qed.
End lookup_props.
Section FindRepoLatest_answers.
Import goolib client lookup.
Variable Compare : string -> string -> Z * option error.
Variable range : gmap string (list PkgSpec.t) -> list (string * list PkgSpec.t).
Hypothesis range_perm : forall m, range m ≡ₚ map_to_list m.

Lemma latest_collect_candidate name arch (rm : gmap string (list RepoSpec.t)) v r :
  (len (collect name arch rm) =? 0)%nat = false ->
  latest Compare (range (collect name arch rm)) = (v, r) ->
  exists s, candidate rm name arch r s /\ PkgSpec.Version s = v.
Proof.
  intros (r0 & s0 & Hc0)%collect_nonempty Hl.
  apply (flat_range_candidate range range_perm), flat_nonempty in Hc0.
  destruct (latest_mem Compare _ Hc0) as (p & Hp & Hv).
  rewrite Hl in Hp, Hv. simpl in *. exists p. split; [|done].
  by apply (flat_range_candidate range range_perm).
Qed.

Lemma archs_loop_sound name (rm : gmap string (list RepoSpec.t)) archs v r a :
  archs_loop Compare range name rm ∅ archs = Ret (v, r, a, None) ->
  derefs_ok rm = true /\ a ∈ archs
  /\ exists s, candidate rm name a r s /\ PkgSpec.Version s = v.
Proof.
  induction archs as [|a0 archs IH]; simpl; [discriminate|].
  destruct (derefs_ok rm) eqn:Hok; [|discriminate].
  rewrite gather_empty.
  destruct (len (collect name a0 rm) =? 0)%nat eqn:E; simpl.
  - rewrite (collect_empty _ _ _ E). intros H. destruct (IH H) as (_ & Hin & Hs).
    split_and!; auto. by right.
  - destruct (latest Compare _) as [v' r'] eqn:El.
    intros H; injection H as -> -> ->.
    split_and!; auto; [left|]. eapply latest_collect_candidate; eauto.
Qed.

Lemma FindRepoLatest_candidate pi (rm : gmap string (list RepoSpec.t)) archs v r a :
  FindRepoLatest Compare range pi rm archs = Ret (v, r, a, None) ->
  exists s, candidate rm (PackageInfo.Name pi) a r s /\ PkgSpec.Version s = v.
Proof.
  unfold FindRepoLatest. destruct (PackageInfo.Arch pi =? "") eqn:Ea; simpl.
  - intros H. by destruct (archs_loop_sound _ _ _ _ _ _ H) as (_ & _ & Hs).
  - destruct (derefs_ok rm); [|discriminate]. rewrite gather_empty.
    destruct (len (collect _ _ rm) =? 0)%nat eqn:E; simpl; [discriminate|].
    destruct (latest Compare _) as [v' r'] eqn:El.
    intros H; injection H as Hv Hr Ha. subst v' r' a.
    eapply latest_collect_candidate; eauto.
Qed.

(** X8: whatever [FindRepoLatest] returns without error is on offer:
    the repo returned lists a spec of the requested name with the
    arch and the version returned; the arch is the requested one, or,
    when none was requested, one of [archs]. *)
Theorem FindRepoLatest_sound (pi : PackageInfo.t) (rm : gmap string (list RepoSpec.t))
        (archs : list string) (v r a : string) :
  FindRepoLatest Compare range pi rm archs = Ret (v, r, a, None) ->
  (if PackageInfo.Arch pi =? "" then a ∈ archs else a = PackageInfo.Arch pi)
  /\ exists s, candidate rm (PackageInfo.Name pi) a r s /\ PkgSpec.Version s = v.
Proof.
  unfold FindRepoLatest. destruct (PackageInfo.Arch pi =? "") eqn:Ea; simpl.
  - intros H. destruct (archs_loop_sound _ _ _ _ _ _ H) as (_ & Hin & Hs).
    split; assumption.
  - intros H. split; [|by apply (FindRepoLatest_candidate pi rm archs);
                        unfold FindRepoLatest; rewrite Ea].
    destruct (derefs_ok rm); [|discriminate]. rewrite gather_empty in H.
    destruct (len (collect _ _ rm) =? 0)%nat; simpl in H; [discriminate|].
    destruct (latest Compare _). by injection H as _ _ ->.
Qed.

Lemma FindRepoLatest_derefs_ok pi (rm : gmap string (list RepoSpec.t)) archs v r a :
  FindRepoLatest Compare range pi rm archs = Ret (v, r, a, None) ->
  derefs_ok rm = true.
Proof.
  unfold FindRepoLatest. destruct (PackageInfo.Arch pi =? ""); simpl.
  - intros H. by destruct (archs_loop_sound _ _ _ _ _ _ H).
  - by destruct (derefs_ok rm).
Qed.

Lemma candidate_offers (rm : gmap string (list RepoSpec.t)) name arch r s :
  candidate rm name arch r s ->
  offers rm r (PackageInfo.mk name arch (PkgSpec.Version s)).
Proof.
  intros (pl & p & Hpl & Hp & Hs & <- & <-). exists pl, p, s.
  split_and!; auto. unfold same_package. simpl. by rewrite !String.eqb_refl.
Qed.

Lemma FindRepoSpec_listed pi pl p ps :
  Forall (fun q => has_spec q = true) pl ->
  p ∈ pl -> RepoSpec.PackageSpec p = Some ps -> same_package ps pi = true ->
  exists p', FindRepoSpec pi pl = Ret (p', None).
Proof.
  intros Hok Hp Hps Hm. induction pl as [|q pl IH]; [inversion Hp|].
  apply Forall_cons in Hok as [Hq Hok]. unfold has_spec in Hq. simpl.
  destruct (RepoSpec.PackageSpec q) as [qs|] eqn:Eq; [|done].
  destruct (same_package qs pi) eqn:Es; [eauto|].
  apply elem_of_cons in Hp as [->|Hp]; [congruence|]. by apply IH.
Qed.

Variable range_rm : gmap string (list RepoSpec.t) -> list (string * list RepoSpec.t).
Hypothesis range_rm_perm : forall m, range_rm m ≡ₚ map_to_list m.

(** X9: the answer of [FindRepoLatest] can be resolved, as the install
    command does next: for the name, arch and version it returned,
    [WhatRepo] finds a repo (for every iteration order) and
    [FindRepoSpec] finds the entry in that repo's list. *)
Theorem FindRepoLatest_then_WhatRepo (pi : PackageInfo.t)
        (rm : gmap string (list RepoSpec.t)) (archs : list string) (v r a : string) :
  FindRepoLatest Compare range pi rm archs = Ret (v, r, a, None) ->
  exists r',
    WhatRepo range_rm (PackageInfo.mk (PackageInfo.Name pi) a v) rm = Ret (r', None)
    /\ offers rm r' (PackageInfo.mk (PackageInfo.Name pi) a v)
    /\ exists pl p,
        rm !! r' = Some pl
        /\ FindRepoSpec (PackageInfo.mk (PackageInfo.Name pi) a v) pl = Ret (p, None).
Proof.
  intros H. pose proof (FindRepoLatest_derefs_ok _ _ _ _ _ _ H) as Hok.
  destruct (FindRepoLatest_candidate _ _ _ _ _ _ H) as (s & Hc & <-).
  apply candidate_offers in Hc.
  destruct (WhatRepo_offered range_rm range_rm_perm
              (PackageInfo.mk (PackageInfo.Name pi) a (PkgSpec.Version s)) rm r Hok Hc)
    as (r' & Hw & Ho).
  exists r'. split_and!; auto.
  destruct Ho as (pl & p & ps & Hpl & Hp & Hps & Hm).
  apply bool_decide_eq_true in Hok. specialize (Hok r' pl Hpl). simpl in Hok.
  destruct (FindRepoSpec_listed _ pl p ps Hok Hp Hps Hm) as [p' Hp'].
  by exists pl, p'.
Qed.
End FindRepoLatest_answers.
Section client_runs.
Import goolib client GooGetState lookup sample cases.

Ltac each_elem :=
  let H := fresh "H" in
  intros ? H;
  repeat (apply elem_of_cons in H as [->|H]; [reflexivity|]);
  by apply elem_of_nil in H.

(** X1 (witness): the theorem at a concrete input. *)
Lemma Remove_no_match_witness :
  exists e, Remove [st_a; st_c] any_b = Ret ([st_a; st_c], Some e).
Proof. apply (Remove_no_match [st_a; st_c] any_b). each_elem. Defined.

(** X2 (witness): the theorem at a concrete input. *)
Lemma Remove_first_match_witness :
  exists s',
    Remove ([st_a] ++ st_b :: [st_c]) any_b = Ret (s', None)
    /\ s' ≡ₚ [st_a] ++ [st_c]
    /\ ([st_c] = [] -> s' = [st_a])
    /\ (forall post' l, [st_c] = post' ++ [l] -> s' = [st_a] ++ l :: post').
Proof.
  apply (Remove_first_match [st_a] st_b [st_c] any_b); [each_elem|reflexivity].
Defined.

(** X3 (witness): the theorem at a concrete input. *)
Lemma Add_then_Remove_witness :
  Remove (Add [st_a; st_c] st_b) any_b = Ret ([st_a; st_c], None).
Proof.
  apply (Add_then_Remove [st_a; st_c] st_b any_b); [each_elem|reflexivity].
Defined.

(** X4 (witness): the theorem at a concrete input. *)
Lemma GetPackageState_sound_witness :
  (@None error = None /\ st_b ∈ [st_a; st_b] /\ PackageState.Match st_b any_b = Ret true)
  \/ (st_b = PackageState.zero /\ is_Some (@None error)
      /\ forall p, p ∈ [st_a; st_b] -> PackageState.Match p any_b = Ret false).
Proof.
  apply (GetPackageState_sound [st_a; st_b] any_b st_b None). reflexivity.
Defined.

(** X5 (witness): the theorem at a concrete input. *)
Lemma Remove_then_GetPackageState_witness :
  GetPackageState ([st_a] ++ st_b :: [st_c]) any_b = Ret (st_b, None)
  /\ exists s' e,
      Remove ([st_a] ++ st_b :: [st_c]) any_b = Ret (s', None)
      /\ GetPackageState s' any_b = Ret (PackageState.zero, Some e).
Proof.
  apply (Remove_then_GetPackageState [st_a] st_b [st_c] any_b);
    [each_elem|reflexivity].
Defined.

(** X6 (witness): the theorem at a concrete input. *)
Lemma FindRepoSpec_sound_witness :
  (@None error = None /\ entry "q" "x86_64" "3" ∈ [entry "p" "noarch" "1"; entry "q" "x86_64" "3"]
   /\ exists ps, RepoSpec.PackageSpec (entry "q" "x86_64" "3") = Some ps
                 /\ PkgSpec.Name ps = "q" /\ PkgSpec.Arch ps = "x86_64"
                 /\ PkgSpec.Version ps = "3")
  \/ (entry "q" "x86_64" "3" = RepoSpec.zero /\ is_Some (@None error)
      /\ forall q qs, q ∈ [entry "p" "noarch" "1"; entry "q" "x86_64" "3"] ->
                      RepoSpec.PackageSpec q = Some qs ->
                      same_package qs (PackageInfo.mk "q" "x86_64" "3") = false).
Proof.
  apply (FindRepoSpec_sound (PackageInfo.mk "q" "x86_64" "3")
           [entry "p" "noarch" "1"; entry "q" "x86_64" "3"]
           (entry "q" "x86_64" "3") None).
  reflexivity.
Defined.

Lemma map_to_list_perm {A : Type} (m : gmap string A) : map_to_list m ≡ₚ map_to_list m.
Proof. reflexivity. Qed.

(** X7 (witness): the theorem at a concrete input. *)
Lemma WhatRepo_finds_offer_witness :
  (exists r, WhatRepo map_to_list (PackageInfo.mk "p" "noarch" "1") rm0 = Ret (r, None)
             /\ offers rm0 r (PackageInfo.mk "p" "noarch" "1"))
  \/ ((exists e, WhatRepo map_to_list (PackageInfo.mk "p" "noarch" "1") rm0
                 = Ret ("", Some e))
      /\ forall r, ~ offers rm0 r (PackageInfo.mk "p" "noarch" "1")).
Proof.
  apply (WhatRepo_finds_offer map_to_list map_to_list_perm
           (PackageInfo.mk "p" "noarch" "1") rm0).
  vm_compute. reflexivity.
Defined.

(** X8 (witness): the theorem at a concrete input. *)
Lemma FindRepoLatest_sound_witness :
  (if PackageInfo.Arch p_noarch =? "" then "noarch" ∈ @nil string
   else "noarch" = PackageInfo.Arch p_noarch)
  /\ exists s, candidate rm0 (PackageInfo.Name p_noarch) "noarch" "a" s
               /\ PkgSpec.Version s = "2".
Proof.
  apply (FindRepoLatest_sound numCompare map_to_list map_to_list_perm
           p_noarch rm0 [] "2" "a" "noarch").
  vm_compute. reflexivity.
Defined.

(** X9 (witness): the theorem at a concrete input. *)
Lemma FindRepoLatest_then_WhatRepo_witness :
  exists r',
    WhatRepo map_to_list (PackageInfo.mk (PackageInfo.Name p_noarch) "noarch" "2") rm0
    = Ret (r', None)
    /\ offers rm0 r' (PackageInfo.mk (PackageInfo.Name p_noarch) "noarch" "2")
    /\ exists pl p,
        rm0 !! r' = Some pl
        /\ FindRepoSpec (PackageInfo.mk (PackageInfo.Name p_noarch) "noarch" "2") pl
           = Ret (p, None).
Proof.
  apply (FindRepoLatest_then_WhatRepo numCompare map_to_list map_to_list_perm
           map_to_list map_to_list_perm p_noarch rm0 [] "2" "a" "noarch").
  vm_compute. reflexivity.
Defined.
End client_runs.

Section decode_cache.
Import goolib client index.
Variable w : World.

(** X10: [decode] creates (and so truncates) the cache file only after
    the payload has been decoded: when the content type is not
    supported, the gzip header is bad or the JSON does not decode,
    the cache file is not touched. *)
Theorem decode_creates_cache_after_decoding (index cf : string) :
  EvCreate cf ∈ fst (decode w index cf) ->
  exists rd m,
    newDecoder w index = inr rd
    /\ decode_loop (json_reuse w) nil_slice (json_values w rd) = inr m.
Proof.
  unfold decode. destruct (newDecoder w index) as [err|rd]; simpl.
  - intros H. inversion H.
  - destruct (decode_loop _ _ _) as [err|m] eqn:E; simpl; [intros H; inversion H|eauto].
Qed.

(** X11: when [decode] returns without error it has created the cache
    file, written to it exactly the list it returns and closed it, in
    that order, and has done nothing else. *)
Theorem decode_caches_what_it_returns (index cf : string) (t : list event)
        (m : list RepoSpec.t) :
  decode w index cf = (t, Ret (m, None)) ->
  t = [EvCreate cf; EvWrite cf m; EvClose cf].
Proof.
  unfold decode. destruct (newDecoder w index) as [err|rd]; [discriminate|].
  destruct (decode_loop _ _ _) as [err|s]; [discriminate|].
  rewrite io_bind_emit. destruct (Create w cf); [discriminate|].
  rewrite io_bind_emit. destruct (Write w cf); [discriminate|].
  rewrite io_bind_emit. cbn. intros H. injection H as <- <- _. done.
Qed.
End decode_cache.

Section fetch_paths.
Import goolib client index available.
Variable w : World.
Variable SplitGCSUrl : string -> bool * string * string.

Lemma decode_returns index cf :
  exists t r, decode w index cf = (t, Ret r) /\ gets t = [] /\ objects t = [].
Proof.
  unfold decode. destruct (newDecoder w index) as [err|rd]; [by eexists _, _|].
  destruct (decode_loop _ _ _) as [err|m]; [by eexists _, _|].
  cbn. destruct (Create w cf); [by eexists _, _|].
  cbn. destruct (Write w cf); by eexists _, _.
Qed.

(** X12: a fresh cache file is answered from disk: the only thing
    [unmarshalRepoPackages] does is open the cache file; there is no
    request and no bucket read, and the proxy setting is not looked
    at.  An error of [Open] is returned; otherwise the result is what
    the arrays in the file decode to. *)
Theorem fresh_cache_is_used (p cacheDir : string) (cacheLife : Z)
        (proxyServer : string) (since : Z) :
  Stat w (filepath_Join w cacheDir (filepath_Base w p +:+ ".rs")) = StatOk since ->
  (since < cacheLife)%Z ->
  exists r,
    unmarshalRepoPackages w SplitGCSUrl p cacheDir cacheLife proxyServer
    = ([EvOpen (filepath_Join w cacheDir (filepath_Base w p +:+ ".rs"))], Ret r)
    /\ (forall e, Open w (filepath_Join w cacheDir (filepath_Base w p +:+ ".rs")) = Some e ->
                  r = ([], Some e))
    /\ (forall m,
           Open w (filepath_Join w cacheDir (filepath_Base w p +:+ ".rs")) = None ->
           decode_loop (json_reuse w) nil_slice
             (json_values w (FileReader (filepath_Join w cacheDir
                                           (filepath_Base w p +:+ ".rs")))) = inr m ->
           r = (elems m, None)).
Proof.
  intros Hstat Hfresh. unfold unmarshalRepoPackages. rewrite Hstat.
  apply Z.ltb_lt in Hfresh. rewrite Hfresh. rewrite io_bind_emit.
  destruct (Open w _) as [e|].
  - eexists. split; [reflexivity|]. split; [by intros e' [= ->]|discriminate].
  - destruct (decode_loop _ _ _) as [e|m].
    + eexists. split; [reflexivity|]. split; [discriminate|]. discriminate.
    + eexists. split; [reflexivity|]. split; [discriminate|]. by intros m' _ [= ->].
Qed.

Lemma objects_app t t' : objects (t ++ t') = objects t ++ objects t'.
Proof. unfold objects. apply omap_app. Qed.

(** X13: without a proxy, the object-storage fetch reads the object
    [index.gz] first and reads [index] exactly when the first read
    failed (in [NewReader] or in [ReadAll]); it makes no HTTP request;
    when both reads fail it returns an error and no RepoSpec. *)
Theorem unmarshalRepoPackagesGCS_gz_then_plain (bucket object cf : string) :
  storage_NewClient w = None ->
  exists t r,
    unmarshalRepoPackagesGCS w bucket object cf "" = (t, Ret r)
    /\ gets t = []
    /\ objects t
       = (bucket, index_object object +:+ ".gz")
           :: (if object_unreadable w bucket (index_object object +:+ ".gz")
               then [(bucket, index_object object)] else [])
    /\ (object_unreadable w bucket (index_object object +:+ ".gz") = true ->
        object_unreadable w bucket (index_object object) = true ->
        exists e, r = ([], Some e)).
Proof.
  intros Hclient. unfold unmarshalRepoPackagesGCS, object_unreadable, index_object.
  cbn [String.eqb negb]. rewrite Hclient. rewrite io_bind_emit.
  set (obj := (if negb (String.length object =? 0)%nat then object +:+ "/" else object)
              +:+ "index").
  destruct (gcs_read w bucket (obj +:+ ".gz")) as [e|[e|b]].
  1,2: rewrite io_bind_emit;
       destruct (gcs_read w bucket obj) as [e'|[e'|b]];
       [eexists _, _; split; [reflexivity|]; split_and!; [done|done|eauto]
       |eexists _, _; split; [reflexivity|]; split_and!; [done|done|eauto]
       |destruct (decode_returns b cf) as (t & r & -> & Hg & Ho);
        eexists _, _; split; [reflexivity|];
        unfold gets, objects in *; cbn [fst snd omap list_omap];
        rewrite ?Hg, ?Ho; split_and!; [done|done|discriminate]].
  destruct (decode_returns b cf) as (t & r & -> & Hg & Ho).
  eexists _, _; split; [reflexivity|].
  unfold gets, objects in *; cbn [fst snd omap list_omap].
  rewrite ?Hg, ?Ho. split_and!; [done|done|discriminate].
Qed.
End fetch_paths.
Section AvailableVersions_props.
Import goolib client index available.
Variable world : nat -> World.
Variable SplitGCSUrl : string -> bool * string * string.

Lemma AvailableVersions_from_spec (srcs : list string) (cacheDir : string)
      (cacheLife : Z) (proxyServer : string) :
  NoDup srcs ->
  forall i (rm0 : gmap string (list RepoSpec.t)),
    (forall k r, srcs !! k = Some r ->
                 exists res, fetched world SplitGCSUrl (i + k) r cacheDir cacheLife
                                     proxyServer = Ret res) ->
    exists t rm,
      AvailableVersions_from world SplitGCSUrl i rm0 srcs cacheDir cacheLife proxyServer
      = (t, Ret rm)
      /\ forall r l,
          rm !! r = Some l <->
          ((exists k, srcs !! k = Some r
                      /\ fetched world SplitGCSUrl (i + k) r cacheDir cacheLife proxyServer
                         = Ret (l, None))
           \/ ((forall k l', srcs !! k = Some r ->
                             fetched world SplitGCSUrl (i + k) r cacheDir cacheLife
                                     proxyServer <> Ret (l', None))
               /\ rm0 !! r = Some l)).
Proof.
  induction 1 as [|r0 rest Hnotin Hnodup IH]; intros i rm0 Hret.
  - exists [], rm0. split; [done|]. intros r l. split.
    + intros H. right. split; [|done]. intros k l' Hk. by rewrite lookup_nil in Hk.
    + intros [(k & Hk & _)|[_ H]]; [by rewrite lookup_nil in Hk|done].
  - destruct (Hret 0 r0 eq_refl) as [[rf err] Hres]. rewrite Nat.add_0_r in Hres.
    unfold fetched in Hres. cbn [AvailableVersions_from].
    destruct (unmarshalRepoPackages (world i) SplitGCSUrl r0 cacheDir cacheLife proxyServer)
      as [t0 g0] eqn:E0.
    simpl in Hres. subst g0. rewrite io_bind_pair.
    assert (forall k r, rest !! k = Some r ->
                        exists res, fetched world SplitGCSUrl (S i + k) r cacheDir
                                            cacheLife proxyServer = Ret res) as Hret'.
    { intros k r Hk. replace (S i + k) with (i + S k) by lia. by apply Hret. }
    assert (fetched world SplitGCSUrl i r0 cacheDir cacheLife proxyServer = Ret (rf, err))
      as Hf0 by (unfold fetched; by rewrite E0).
    assert (forall k, i + S k = S i + k) as Hsk by (intros; lia).
    destruct err as [e|].
    + destruct (IH (S i) rm0 Hret') as (t & rm & -> & Hrm).
      eexists _, _. split; [reflexivity|]. intros r l. rewrite Hrm. split.
      * intros [(k & Hk & Hf)|[Hno Hl]].
        -- left. exists (S k). split; [done|]. by rewrite Hsk.
        -- right. split; [|done]. intros [|k] l' Hk.
           ++ injection Hk as <-. rewrite Nat.add_0_r, Hf0. discriminate.
           ++ rewrite Hsk. by apply Hno.
      * intros [(k & Hk & Hf)|[Hno Hl]].
        -- destruct k as [|k].
           ++ injection Hk as <-. rewrite Nat.add_0_r, Hf0 in Hf. discriminate.
           ++ left. exists k. split; [done|]. by rewrite <- Hsk.
        -- right. split; [|done]. intros k l' Hk. rewrite <- Hsk. by apply (Hno (S k)).
    + destruct (IH (S i) (<[r0:=rf]> rm0) Hret') as (t & rm & -> & Hrm).
      eexists _, _. split; [reflexivity|]. intros r l. rewrite Hrm. split.
      * intros [(k & Hk & Hf)|[Hno Hl]].
        -- left. exists (S k). split; [done|]. by rewrite Hsk.
        -- destruct (decide (r = r0)) as [->|Hne].
           ++ rewrite lookup_insert_eq in Hl. injection Hl as <-.
              left. exists 0. split; [done|]. by rewrite Nat.add_0_r.
           ++ rewrite lookup_insert_ne in Hl by done.
              right. split; [|done]. intros [|k] l' Hk.
              ** injection Hk as <-. done.
              ** rewrite Hsk. by apply Hno.
      * intros [(k & Hk & Hf)|[Hno Hl]].
        -- destruct k as [|k].
           ++ injection Hk as <-. rewrite Nat.add_0_r, Hf0 in Hf. injection Hf as <-.
              right. split; [|by rewrite lookup_insert_eq].
              intros k l' Hk. exfalso. apply Hnotin.
              eapply list_elem_of_lookup_2. exact Hk.
           ++ left. exists k. split; [done|]. by rewrite <- Hsk.
        -- assert (r <> r0) as Hne.
           { intros ->. apply (Hno 0 rf eq_refl). by rewrite Nat.add_0_r. }
           right. split; [|by rewrite lookup_insert_ne].
           intros k l' Hk. rewrite <- Hsk. by apply (Hno (S k)).
Qed.

(** X14: for distinct sources, each of whose fetches returns,
    [AvailableVersions] returns a map that holds exactly the sources
    that were fetched without error, each with the list fetched for
    it: a source that fails is left out and does not stop the
    others. *)
Theorem AvailableVersions_keeps_what_was_fetched (srcs : list string)
        (cacheDir : string) (cacheLife : Z) (proxyServer : string) :
  NoDup srcs ->
  (forall k r, srcs !! k = Some r ->
               exists res, fetched world SplitGCSUrl k r cacheDir cacheLife proxyServer
                           = Ret res) ->
  exists t rm,
    AvailableVersions world SplitGCSUrl srcs cacheDir cacheLife proxyServer = (t, Ret rm)
    /\ forall r l,
        rm !! r = Some l <->
        exists k, srcs !! k = Some r
                  /\ fetched world SplitGCSUrl k r cacheDir cacheLife proxyServer
                     = Ret (l, None).
Proof.
  intros Hnodup Hret. unfold AvailableVersions.
  destruct (AvailableVersions_from_spec srcs cacheDir cacheLife proxyServer Hnodup 0 ∅ Hret)
    as (t & rm & -> & Hrm).
  exists t, rm. split; [done|]. intros r l. rewrite Hrm. split.
  - intros [H|[_ H]]; [done|by rewrite lookup_empty in H].
  - intros H. by left.
Qed.
End AvailableVersions_props.
Section index_extra_runs.
Import goolib client index available sample cases_index.

(** X10 (witness): the theorem at a concrete input. *)
Lemma decode_creates_cache_after_decoding_witness :
  exists rd m,
    newDecoder (w_two true) "two arrays" = inr rd
    /\ decode_loop (json_reuse (w_two true)) nil_slice (json_values (w_two true) rd)
       = inr m.
Proof.
  apply (decode_creates_cache_after_decoding (w_two true) "two arrays" "cache/repo.rs").
  vm_compute. apply list_elem_of_here.
Defined.

(** X11 (witness): the theorem at a concrete input. *)
Lemma decode_caches_what_it_returns_witness :
  exists t,
    decode (w_two true) "two arrays" "cache/repo.rs" = (t, Ret ([rsB], None))
    /\ t = [EvCreate "cache/repo.rs"; EvWrite "cache/repo.rs" [rsB];
            EvClose "cache/repo.rs"].
Proof.
  eexists. split; [vm_compute; reflexivity|].
  apply (decode_caches_what_it_returns (w_two true) "two arrays" "cache/repo.rs" _ [rsB]).
  vm_compute. reflexivity.
Defined.

(** X12 (witness): the theorem at a concrete input. *)
Lemma fresh_cache_is_used_witness :
  exists r,
    unmarshalRepoPackages w_cached goolib.SplitGCSUrl "https://host/repo" "cache" 180
                          "not a url"
    = ([EvOpen (filepath_Join w_cached "cache"
                  (filepath_Base w_cached "https://host/repo" +:+ ".rs"))], Ret r)
    /\ (forall e, Open w_cached (filepath_Join w_cached "cache"
                    (filepath_Base w_cached "https://host/repo" +:+ ".rs")) = Some e ->
                  r = ([], Some e))
    /\ (forall m,
           Open w_cached (filepath_Join w_cached "cache"
             (filepath_Base w_cached "https://host/repo" +:+ ".rs")) = None ->
           decode_loop (json_reuse w_cached) nil_slice
             (json_values w_cached
                (FileReader (filepath_Join w_cached "cache"
                               (filepath_Base w_cached "https://host/repo" +:+ ".rs"))))
           = inr m ->
           r = (elems m, None)).
Proof.
  apply (fresh_cache_is_used w_cached goolib.SplitGCSUrl "https://host/repo" "cache" 180
           "not a url" 10); [reflexivity|lia].
Defined.

(** X13 (witness): the theorem at a concrete input. *)
Lemma unmarshalRepoPackagesGCS_gz_then_plain_witness :
  exists t r,
    unmarshalRepoPackagesGCS (w_two true) "bucket" "repo" "cache/repo.rs" "" = (t, Ret r)
    /\ gets t = []
    /\ objects t
       = ("bucket", index_object "repo" +:+ ".gz")
           :: (if object_unreadable (w_two true) "bucket" (index_object "repo" +:+ ".gz")
               then [("bucket", index_object "repo")] else [])
    /\ (object_unreadable (w_two true) "bucket" (index_object "repo" +:+ ".gz") = true ->
        object_unreadable (w_two true) "bucket" (index_object "repo") = true ->
        exists e, r = ([], Some e)).
Proof.
  apply (unmarshalRepoPackagesGCS_gz_then_plain (w_two true) "bucket" "repo"
           "cache/repo.rs").
  reflexivity.
Defined.

Lemma two_sources_return :
  forall k r, two_sources !! k = Some r ->
              exists res, fetched (fun _ => w_two true) goolib.SplitGCSUrl k r "cache" 180 ""
                          = Ret res.
Proof.
  intros [|[|k]] r Hk; try discriminate; injection Hk as <-;
    eexists; vm_compute; reflexivity.
Defined.

(** X14 (witness): the theorem at a concrete input. *)
Lemma AvailableVersions_keeps_what_was_fetched_witness :
  exists t rm,
    AvailableVersions (fun _ => w_two true) goolib.SplitGCSUrl two_sources "cache" 180 ""
    = (t, Ret rm)
    /\ forall r l,
        rm !! r = Some l <->
        exists k, two_sources !! k = Some r
                  /\ fetched (fun _ => w_two true) goolib.SplitGCSUrl k r "cache" 180 ""
                     = Ret (l, None).
Proof.
  apply (AvailableVersions_keeps_what_was_fetched (fun _ => w_two true)
           goolib.SplitGCSUrl two_sources "cache" 180 "").
  - apply NoDup_cons. split; [|apply NoDup_singleton].
    intros H. apply list_elem_of_singleton in H. discriminate.
  - exact two_sources_return.
Defined.
End index_extra_runs.

Section table_invariant.
Import goolib client googetdb googetdb_more.
Variable marshalPkgSpec : PkgSpec.t -> index.JPkgSpec.

Lemma same_key_key name arch r :
  same_key name arch r = false <-> key r <> (name, arch).
Proof.
  rewrite same_key_false. unfold key. split.
  - intros H E. injection E as ? ?. by apply H.
  - intros H [? ?]. apply H. congruence.
Qed.

Lemma insert_or_replace_ok t name ver arch json :
  table_ok t -> table_ok (insert_or_replace t name ver arch json).
Proof.
  intros (Hkeys & Hids & Hseq). unfold table_ok, insert_or_replace. cbn [rows seq].
  set (kept := filter (fun r => same_key name arch r = false) (rows t)).
  assert (sublist kept (rows t)) as Hsub by apply sublist_filter.
  rewrite !fmap_app. cbn [fmap list_fmap]. split_and!.
  - apply NoDup_app. split_and!.
    + eapply sublist_NoDup; [exact Hkeys|]. by apply fmap_sublist.
    + intros k (r & -> & Hr)%list_elem_of_fmap Hin.
      apply list_elem_of_singleton in Hin.
      apply list_elem_of_filter in Hr as [Hr _]. by apply same_key_key in Hr.
    + apply NoDup_singleton.
  - apply NoDup_app. split_and!.
    + eapply sublist_NoDup; [exact Hids|]. by apply fmap_sublist.
    + intros i (r & -> & Hr)%list_elem_of_fmap Hin.
      apply list_elem_of_singleton in Hin. simpl in Hin.
      apply list_elem_of_filter in Hr as [_ Hr].
      rewrite Forall_forall in Hseq. specialize (Hseq r Hr). lia.
    + apply NoDup_singleton.
  - apply Forall_app. split.
    + apply Forall_forall. intros r Hr. apply list_elem_of_filter in Hr as [_ Hr].
      rewrite Forall_forall in Hseq. specialize (Hseq r Hr). lia.
    + constructor; [simpl; lia|constructor].
Qed.

Lemma delete_where_ok t name arch :
  table_ok t -> table_ok (delete_where t name arch).
Proof.
  intros (Hkeys & Hids & Hseq). unfold table_ok, delete_where. cbn [rows seq].
  set (kept := filter (fun r => same_key name arch r = false) (rows t)).
  assert (sublist kept (rows t)) as Hsub by apply sublist_filter.
  split_and!.
  - eapply sublist_NoDup; [exact Hkeys|]. by apply fmap_sublist.
  - eapply sublist_NoDup; [exact Hids|]. by apply fmap_sublist.
  - apply Forall_forall. intros r Hr. apply list_elem_of_filter in Hr as [_ Hr].
    rewrite Forall_forall in Hseq. by apply Hseq.
Qed.

Lemma addPkg_ok_table env db ps db' err :
  table_ok db -> addPkg marshalPkgSpec env db ps = Ret (db', err) -> table_ok db'.
Proof.
  intros Hok. unfold addPkg. destruct (PackageState.PackageSpec ps); [|discriminate].
  destruct (failure env); intros H; injection H as <- _; auto.
  by apply insert_or_replace_ok.
Qed.

Lemma WriteStateToDB_from_ok env i db states db' err :
  table_ok db ->
  WriteStateToDB_from marshalPkgSpec env i db states = Ret (db', err) ->
  table_ok db'.
Proof.
  revert i db. induction states as [|ps states IH]; intros i db Hok; simpl.
  - by intros [= <- _].
  - destruct (addPkg marshalPkgSpec (env i) db ps) as [[db1 [e|]]| |] eqn:E;
      try discriminate.
    + intros [= <- _]. eapply addPkg_ok_table; eauto.
    + apply IH. eapply addPkg_ok_table; eauto.
Qed.

(** X15: the table keeps its unique key: from a table in which no two
    rows share (PkgName, PkgArch) or an id and no id exceeds the
    AUTOINCREMENT counter, every [WriteStateToDB], whatever goes
    wrong in it, and every [RemovePkg] leave such a table. *)
Theorem table_stays_unique (db : Table) :
  table_ok db ->
  (forall env states db' err,
      WriteStateToDB marshalPkgSpec env db states = Ret (db', err) -> table_ok db')
  /\ (forall exec_err name arch db' err,
         RemovePkg exec_err db name arch = Some (db', err) -> table_ok db').
Proof.
  intros Hok. split.
  - intros env states db' err. by apply WriteStateToDB_from_ok.
  - intros exec_err name arch db' err. unfold RemovePkg.
    destruct (literal_safe name && literal_safe arch); [|discriminate].
    destruct exec_err; intros [= <- _]; [done|]. by apply delete_where_ok.
Qed.
End table_invariant.
Section write_then_fetch.
Import goolib client googetdb googetdb_more.
Variable marshalPkgSpec : PkgSpec.t -> index.JPkgSpec.
Variable scan : list Row.t -> list Row.t.
Hypothesis scan_perm : forall l, scan l ≡ₚ l.

Lemma scan_singleton r : scan [r] = [r].
Proof. apply Permutation_singleton_r, scan_perm. Qed.

Lemma Unmarshal_Marshal ps :
  (forall s, PackageState.PackageSpec ps = Some s ->
             index.unmarshalPkgSpec index.PkgSpec_zero (marshalPkgSpec s) = s) ->
  Unmarshal (Object (Marshal marshalPkgSpec ps)) PackageState.zero = (ps, None).
Proof.
  intros Hspec. destruct ps as [sr du ck lp ud spec files [an ar] date].
  unfold Unmarshal, Marshal. cbn. f_equal. f_equal.
  - destruct spec as [s|]; [|done]. cbn. f_equal. by apply Hspec.
  - destruct files as [m|]; [|done]. cbn. f_equal. apply (right_id_L ∅ (∪)).
Qed.

Lemma filter_name_insert (db : Table) name ver arch json :
  (forall r, r ∈ rows db -> Row.PkgName r = name -> Row.PkgArch r = arch) ->
  filter (fun r => (Row.PkgName r =? name) = true)
         (rows (insert_or_replace db name ver arch json))
  = [Row.mk (seq db + 1) name arch ver json].
Proof.
  intros Honly. unfold insert_or_replace. cbn [rows].
  rewrite filter_app, filter_cons, decide_True by apply String.eqb_refl.
  rewrite filter_nil.
  assert (filter (fun r => (Row.PkgName r =? name) = true)
                 (filter (fun r => same_key name arch r = false) (rows db)) = []) as ->;
    [|done].
  induction (rows db) as [|r l IH]; [done|].
  rewrite filter_cons. destruct (decide (same_key name arch r = false)) as [E|E].
  - rewrite filter_cons, decide_False.
    + apply IH. intros q Hq. apply Honly. by right.
    + rewrite String.eqb_eq. intros Hn. apply same_key_false in E. apply E.
      split; [done|]. apply Honly; [left|done].
  - apply IH. intros q Hq. apply Honly. by right.
Qed.

(** X16: what is written can be fetched: after [addPkg] has stored a
    state whose name is installed for no other arch, [FetchPkg] of
    that name returns the state, with the application association and
    the install date that [addPkg] assigned.  (The JSON text of the
    spec must decode to the spec.) *)
Theorem addPkg_then_FetchPkg (env : Env) (db : Table) (ps : PackageState.t)
        (spec : PkgSpec.t) :
  PackageState.PackageSpec ps = Some spec ->
  failure env = NoFault ->
  index.unmarshalPkgSpec index.PkgSpec_zero (marshalPkgSpec spec) = spec ->
  (forall r, r ∈ rows db -> Row.PkgName r = PkgSpec.Name spec ->
             Row.PkgArch r = PkgSpec.Arch spec) ->
  exists db',
    addPkg marshalPkgSpec env db ps = Ret (db', None)
    /\ FetchPkg scan None db' (PkgSpec.Name spec) = Ret (stamped env ps, None).
Proof.
  intros Hspec Hfault Hround Honly.
  exists (committed marshalPkgSpec env db ps). split.
  - apply addPkg_ok; [done|by eexists].
  - unfold FetchPkg, selectSpecQuery, committed. rewrite Hspec.
    rewrite filter_name_insert by done. rewrite scan_singleton.
    cbn [fmap list_fmap Row.PkgJson fetch_loop fold_left].
    unfold stamped. rewrite Unmarshal_Marshal.
    + cbn. by rewrite Hspec.
    + intros s. cbn. by intros [= <-].
Qed.

Lemma filter_other_insert (db : Table) name ver arch json other :
  other <> name ->
  filter (fun r => (Row.PkgName r =? other) = true)
         (rows (insert_or_replace db name ver arch json))
  = filter (fun r => (Row.PkgName r =? other) = true) (rows db).
Proof.
  intros Hne. unfold insert_or_replace. cbn [rows].
  rewrite filter_app, filter_cons, decide_False, filter_nil, app_nil_r
    by (cbn; rewrite String.eqb_eq; congruence).
  induction (rows db) as [|r l IH]; [done|].
  rewrite !filter_cons.
  destruct (decide (same_key name arch r = false)) as [E|E].
  - rewrite filter_cons. by rewrite IH.
  - rewrite decide_False; [done|].
    rewrite String.eqb_eq. intros Hn. apply E, same_key_false. intros [? ?]. congruence.
Qed.

(** X17: [addPkg], successful or not, changes nothing of what
    [FetchPkg] returns for any other package name. *)
Theorem addPkg_leaves_other_names (env : Env) (db db' : Table) (ps : PackageState.t)
        (spec : PkgSpec.t) (err : option error) (other : string)
        (query_err : option error) :
  PackageState.PackageSpec ps = Some spec ->
  addPkg marshalPkgSpec env db ps = Ret (db', err) ->
  other <> PkgSpec.Name spec ->
  FetchPkg scan query_err db' other = FetchPkg scan query_err db other.
Proof.
  intros Hspec Hadd Hne. unfold addPkg in Hadd. rewrite Hspec in Hadd.
  destruct (failure env); injection Hadd as <- _; try done.
  unfold FetchPkg, selectSpecQuery. by rewrite filter_other_insert.
Qed.
End write_then_fetch.

Section add_then_remove.
Import goolib client googetdb googetdb_more.
Variable marshalPkgSpec : PkgSpec.t -> index.JPkgSpec.

(** X18: [RemovePkg] undoes [addPkg]: when the table has no row for
    the name and arch of the state, adding it and then removing that
    name and arch leaves the rows of the table as they were; only the
    AUTOINCREMENT counter has advanced. *)
Theorem addPkg_then_RemovePkg (env : Env) (db : Table) (ps : PackageState.t)
        (spec : PkgSpec.t) :
  PackageState.PackageSpec ps = Some spec ->
  failure env = NoFault ->
  literal_safe (PkgSpec.Name spec) = true ->
  literal_safe (PkgSpec.Arch spec) = true ->
  (forall r, r ∈ rows db ->
             ~ (Row.PkgName r = PkgSpec.Name spec /\ Row.PkgArch r = PkgSpec.Arch spec)) ->
  exists db1 db2,
    addPkg marshalPkgSpec env db ps = Ret (db1, None)
    /\ RemovePkg None db1 (PkgSpec.Name spec) (PkgSpec.Arch spec) = Some (db2, None)
    /\ rows db2 = rows db
    /\ seq db2 = (seq db + 1)%Z.
Proof.
  intros Hspec Hfault Hn Ha Hfresh.
  exists (committed marshalPkgSpec env db ps). eexists. split_and!.
  - apply addPkg_ok; [done|by eexists].
  - unfold RemovePkg. by rewrite Hn, Ha.
  - unfold committed. rewrite Hspec. unfold delete_where, insert_or_replace.
    cbn [rows]. rewrite filter_app, filter_cons, decide_False, filter_nil, app_nil_r
      by (unfold same_key; cbn; by rewrite !String.eqb_refl).
    assert (forall l : list Row.t,
               (forall r, r ∈ l -> same_key (PkgSpec.Name spec) (PkgSpec.Arch spec) r = false) ->
               filter (fun r => same_key (PkgSpec.Name spec) (PkgSpec.Arch spec) r = false) l
               = l) as Hid.
    { induction l as [|r l IH]; intros H; [done|].
      rewrite filter_cons, decide_True by (apply H; left).
      rewrite IH; [done|]. intros q Hq. apply H. by right. }
    rewrite !Hid; [done| |].
    + intros r Hr. apply same_key_false. by apply Hfresh.
    + intros r Hr. rewrite Hid in Hr; [|intros q Hq; apply same_key_false; by apply Hfresh].
      apply same_key_false. by apply Hfresh.
  - unfold committed. by rewrite Hspec.
Qed.
End add_then_remove.
Section FetchPkgs_props.
Import goolib client googetdb googetdb_more.
Variable scan : list Row.t -> list Row.t.
Variable scan_all : list Row.t -> list Row.t.
Hypothesis scan_all_perm : forall l, scan_all l ≡ₚ l.

Lemma FetchPkgs_loop_no_faults db names i state :
  FetchPkgs_loop scan no_faults db names i state
  = Ret (state ++ ((fun n => fetch_loop (selectSpecQuery scan db n) PackageState.zero)
                     <$> names), None).
Proof.
  revert i state. induction names as [|n names IH]; intros i state; simpl.
  - by rewrite app_nil_r.
  - rewrite IH. by rewrite <- app_assoc.
Qed.

(** X19: without faults, [FetchPkgs] returns one state per row of the
    table, the state at the place of a row being what [FetchPkg]
    returns for the name of that row.  So when a name is installed
    for two archs, the same state is listed twice, once for each of
    its rows. *)
Theorem FetchPkgs_one_entry_per_row (db : Table) :
  exists st,
    FetchPkgs scan scan_all no_faults db = Ret (st, None)
    /\ length st = length (rows db)
    /\ (forall i r, scan_all (rows db) !! i = Some r ->
                    FetchPkg scan None db (Row.PkgName r)
                    = Ret (default PackageState.zero (st !! i), None))
    /\ (forall i j ri rj,
           scan_all (rows db) !! i = Some ri -> scan_all (rows db) !! j = Some rj ->
           Row.PkgName ri = Row.PkgName rj -> st !! i = st !! j).
Proof.
  unfold FetchPkgs. cbn [list_err no_faults]. rewrite FetchPkgs_loop_no_faults.
  eexists. split; [reflexivity|]. cbn [app]. split_and!.
  - rewrite !length_fmap. by rewrite scan_all_perm.
  - intros i r Hi. rewrite <- list_fmap_compose, list_lookup_fmap, Hi. done.
  - intros i j ri rj Hi Hj Hn.
    rewrite <- list_fmap_compose, !list_lookup_fmap, Hi, Hj. cbn. by rewrite Hn.
Qed.
End FetchPkgs_props.

Section processExitCodes_props.
Import googetdb_more.

Lemma split_commas_length s cur : length (split_commas s cur) = S (commas s).
Proof.
  revert cur. induction s as [|c s IH]; intros cur; [done|].
  simpl. destruct (Ascii.eqb c ","); simpl; by rewrite IH.
Qed.

Lemma Atoi_range s : (MinInt <= fst (Atoi s) <= MaxInt)%Z.
Proof.
  assert (MinInt <= 0 <= MaxInt)%Z as H0 by (unfold MinInt, MaxInt; lia).
  unfold Atoi.
  destruct (match s with
            | String "-"%char s' => (true, s')
            | String "+"%char s' => (false, s')
            | _ => (false, s)
            end) as [neg body].
  destruct body as [|c body]; [done|].
  destruct (decimal _ _) as [n|]; [|done].
  destruct (Z.ltb_spec (if neg then (- n)%Z else n) MinInt); [simpl; unfold MinInt, MaxInt; lia|].
  destruct (Z.ltb_spec MaxInt (if neg then (- n)%Z else n)); simpl;
    unfold MinInt, MaxInt in *; lia.
Qed.

Lemma decimal_not_digits s acc : all_digits s = false -> decimal s acc = None.
Proof.
  revert acc. induction s as [|c s IH]; intros acc; simpl; [done|].
  destruct ((48 <=? Z.of_N (N_of_ascii c)) && (Z.of_N (N_of_ascii c) <=? 57))%Z;
    simpl; [apply IH|done].
Qed.

Lemma Atoi_not_number s : is_number s = false -> fst (Atoi s) = 0%Z.
Proof.
  unfold is_number, Atoi.
  assert (forall (neg : bool) (body : string),
             negb (body =? "") && all_digits body = false ->
             fst (match body with
                  | EmptyString => (0%Z, true)
                  | _ =>
                      match decimal body 0 with
                      | None => (0%Z, true)
                      | Some n =>
                          let v := if neg then (- n)%Z else n in
                          if (v <? MinInt)%Z then (MinInt, true)
                          else if (MaxInt <? v)%Z then (MaxInt, true)
                          else (v, false)
                      end
                  end) = 0%Z) as H.
  { intros neg [|c body]; [done|]. cbn [String.eqb negb andb].
    intros Hd. by rewrite (decimal_not_digits _ _ Hd). }
  destruct s as [|c s]; [done|].
  destruct c as [[] [] [] [] [] [] [] []]; intros Hn;
    first [apply (H true _ Hn) | apply (H false _ Hn)].
Qed.

(** X20: [processExitCodes] returns one code per comma-separated
    piece (one more than there are commas, so one even for the empty
    string), each within the range of a 64-bit int; a piece that is
    not a number yields the code 0. *)
Theorem processExitCodes_one_per_piece (eCodes : string) :
  length (processExitCodes eCodes) = S (commas eCodes)
  /\ Forall (fun c => (MinInt <= c <= MaxInt)%Z) (processExitCodes eCodes)
  /\ (forall i v, Split eCodes !! i = Some v -> is_number v = false ->
                  processExitCodes eCodes !! i = Some 0%Z).
Proof.
  unfold processExitCodes, Split. split_and!.
  - by rewrite length_fmap, split_commas_length.
  - apply Forall_fmap, Forall_forall. intros v _. apply Atoi_range.
  - intros i v Hi Hn. rewrite list_lookup_fmap, Hi. cbn. f_equal.
    by apply Atoi_not_number.
Qed.
End processExitCodes_props.
Section googetdb_extra_runs.
Import goolib client googetdb googetdb_more sample cases_db.

Ltac distinct :=
  repeat (apply NoDup_cons; split;
          [let H := fresh "H" in
           intros H; repeat (apply elem_of_cons in H as [H|H]; [discriminate|]);
           by apply elem_of_nil in H|]);
  apply NoDup_nil_2.

Ltac each_row :=
  let H := fresh "H" in
  intros ? H;
  repeat (apply elem_of_cons in H as [->|H]; [try discriminate; try (intros [? ?]; discriminate)|]);
  try by apply elem_of_nil in H.

Lemma two_archs_ok : table_ok two_archs.
Proof.
  split_and!; [distinct|distinct|].
  repeat constructor; simpl; lia.
Defined.

(** X15 (witness): the theorem at a concrete input. *)
Lemma table_stays_unique_witness :
  (forall env states db' err,
      WriteStateToDB marshalAll env two_archs states = Ret (db', err) -> table_ok db')
  /\ (forall exec_err name arch db' err,
         RemovePkg exec_err two_archs name arch = Some (db', err) -> table_ok db').
Proof. exact (table_stays_unique marshalAll two_archs two_archs_ok). Defined.

(** X16 (witness): the theorem at a concrete input. *)
Lemma addPkg_then_FetchPkg_witness :
  exists db',
    addPkg marshalAll calm two_archs st_q = Ret (db', None)
    /\ FetchPkg by_rowid None db' (PkgSpec.Name (spec "q" "noarch" "1"))
       = Ret (stamped calm st_q, None).
Proof.
  apply (addPkg_then_FetchPkg marshalAll by_rowid by_rowid_perm calm two_archs st_q
           (spec "q" "noarch" "1")); try reflexivity.
  each_row.
Defined.

(** X17 (witness): the theorem at a concrete input. *)
Lemma addPkg_leaves_other_names_witness :
  FetchPkg by_arch None (committed marshalAll calm two_archs st_q) "p"
  = FetchPkg by_arch None two_archs "p".
Proof.
  apply (addPkg_leaves_other_names marshalAll by_arch calm two_archs
           (committed marshalAll calm two_archs st_q) st_q (spec "q" "noarch" "1")
           None "p" None); [reflexivity|reflexivity|discriminate].
Defined.

(** X18 (witness): the theorem at a concrete input. *)
Lemma addPkg_then_RemovePkg_witness :
  exists db1 db2,
    addPkg marshalAll calm two_archs st_q = Ret (db1, None)
    /\ RemovePkg None db1 (PkgSpec.Name (spec "q" "noarch" "1"))
                 (PkgSpec.Arch (spec "q" "noarch" "1")) = Some (db2, None)
    /\ rows db2 = rows two_archs
    /\ seq db2 = (seq two_archs + 1)%Z.
Proof.
  apply (addPkg_then_RemovePkg marshalAll calm two_archs st_q (spec "q" "noarch" "1"));
    try reflexivity.
  each_row.
Defined.

(** X19 (witness): the theorem at a concrete input. *)
Lemma FetchPkgs_one_entry_per_row_witness :
  exists st,
    FetchPkgs by_arch by_rowid no_faults two_archs = Ret (st, None)
    /\ length st = length (rows two_archs)
    /\ (forall i r, by_rowid (rows two_archs) !! i = Some r ->
                    FetchPkg by_arch None two_archs (Row.PkgName r)
                    = Ret (default PackageState.zero (st !! i), None))
    /\ (forall i j ri rj,
           by_rowid (rows two_archs) !! i = Some ri ->
           by_rowid (rows two_archs) !! j = Some rj ->
           Row.PkgName ri = Row.PkgName rj -> st !! i = st !! j).
Proof.
  exact (FetchPkgs_one_entry_per_row by_arch by_rowid by_rowid_perm two_archs).
Defined.
End googetdb_extra_runs.

Section extractVerify_props.
Import goolib client verify verify_more.
Variable w : World.

Lemma extract_loop_found headers verify dir :
  extract_loop w headers verify dir = None ->
  exists pre name post,
    headers = pre ++ inr name :: post
    /\ Forall (other_entry w verify) pre
    /\ filepath_Clean w name = filepath_Clean w verify
    /\ MkdirAll w dir = None
    /\ OpenFile w (filepath_Join w dir verify) = None
    /\ Copy w (filepath_Join w dir verify) = None
    /\ Close w (filepath_Join w dir verify) = None.
Proof.
  induction headers as [|[e|name] headers IH]; simpl; try discriminate.
  destruct (String.eqb_spec (filepath_Clean w name) (filepath_Clean w verify)) as [E|E];
    simpl.
  - destruct (MkdirAll w dir) eqn:Em; [discriminate|].
    destruct (OpenFile w _) eqn:Eo; [discriminate|].
    destruct (Copy w _) eqn:Ec; [discriminate|].
    intros Hclose. exists [], name, headers. split_and!; auto.
  - intros H. destruct (IH H) as (pre & n & post & -> & Hpre & Hrest).
    exists (inr name :: pre), n, post. split_and!; try tauto.
    constructor; [exact E|exact Hpre].
Qed.

(** X21: [extractVerify] succeeds only when the gzip stream opened,
    the archive has an entry whose cleaned name is the cleaned path of
    the verify command, every entry before it was read without error
    and has another name, and creating the directory and writing and
    closing the file all succeeded. *)
Theorem extractVerify_success_means_found (r : archive) (verify dir : string) :
  extractVerify w r verify dir = None ->
  gzip_err r = None
  /\ exists pre name post,
      headers r = pre ++ inr name :: post
      /\ Forall (other_entry w verify) pre
      /\ filepath_Clean w name = filepath_Clean w verify
      /\ MkdirAll w dir = None
      /\ OpenFile w (filepath_Join w dir verify) = None
      /\ Copy w (filepath_Join w dir verify) = None
      /\ Close w (filepath_Join w dir verify) = None.
Proof.
  unfold extractVerify. destruct (gzip_err r); [discriminate|].
  intros H. split; [done|]. by apply extract_loop_found.
Qed.

Lemma extract_loop_first_match pre name post verify dir :
  Forall (other_entry w verify) pre ->
  filepath_Clean w name = filepath_Clean w verify ->
  extract_loop w (pre ++ inr name :: post) verify dir
  = extract_loop w [inr name] verify dir.
Proof.
  intros Hpre Hname. induction Hpre as [|[e|n] pre Hn _ IH]; simpl in *.
  - apply String.eqb_eq in Hname. by rewrite Hname.
  - done.
  - apply String.eqb_neq in Hn. by rewrite Hn.
Qed.

(** X22: [extractVerify] stops at the first entry that names the
    verify command: what follows it in the archive, be it further
    entries or a read error, does not change the result. *)
Theorem extractVerify_stops_at_first_match (r : archive) (pre : list (error + string))
        (name : string) (post post' : list (error + string)) (verify dir : string) :
  headers r = pre ++ inr name :: post ->
  Forall (other_entry w verify) pre ->
  filepath_Clean w name = filepath_Clean w verify ->
  extractVerify w r verify dir
  = extractVerify w (mkArchive (gzip_err r) (pre ++ inr name :: post')) verify dir.
Proof.
  intros Hh Hpre Hname. unfold extractVerify. cbn [gzip_err headers]. rewrite Hh.
  destruct (gzip_err r); [done|].
  by rewrite !extract_loop_first_match.
Qed.
End extractVerify_props.

Section RunVerifyCommand_props.
Import goolib client verify verify_more.
Variable w : World.

Ltac in_trace H :=
  repeat (first [ apply elem_of_nil in H; contradiction
                | apply elem_of_cons in H as [H|H]; [try discriminate|] ]).

Ltac run_step :=
  first
    [ rewrite io_bind_emit
    | rewrite io_bind_ret
    | rewrite io_bind_pair
    | progress cbn [fst snd io_ret app]
    | match goal with
      | |- context [match ?x with _ => _ end] =>
          lazymatch x with
          | context [match _ with _ => _ end] => fail
          | _ => destruct x eqn:?
          end
      end ].

(** X23: [RunVerifyCommand] never reports success on its own account:
    when it returns [true], the error is nil and either the package
    has no verify command or a run of the verify script succeeded. *)
Theorem RunVerifyCommand_true_means_verified (ps : PackageState.t)
        (proxyServer : string) (err : option error) :
  snd (RunVerifyCommand w ps proxyServer) = Ret (true, err) ->
  err = None
  /\ exists spec,
      PackageState.PackageSpec ps = Some spec
      /\ (ExecFile.Path (PkgSpec.Verify spec) = ""
          \/ exists reextracted dir,
              EvVerify reextracted dir None ∈ fst (RunVerifyCommand w ps proxyServer)).
Proof.
  unfold RunVerifyCommand.
  repeat run_step; intros H; try discriminate; injection H as <-;
    (split; [done|]); eexists; (split; [reflexivity|]).
  all: try (left; by apply String.eqb_eq).
  all: right; eexists _, _;
    repeat first [apply list_elem_of_here | apply list_elem_of_further].
Qed.

Lemma must_download_iff (ps : PackageState.t) :
  must_download w ps = true <->
  (exists e, os_Open w (PackageState.LocalPath ps) = OpenNotExist e)
  \/ (PackageState.Checksum ps <> ""
      /\ goolib_Checksum w (PackageState.LocalPath ps) <> PackageState.Checksum ps).
Proof.
  unfold must_download. destruct (os_Open w _) as [|e|e].
  - rewrite andb_true_iff, !negb_true_iff, !String.eqb_neq. split; [auto|].
    intros [[e He]|H]; [discriminate|done].
  - split; [eauto|done].
  - rewrite andb_true_iff, !negb_true_iff, !String.eqb_neq. split; [auto|].
    intros [[e' He]|H]; [discriminate|done].
Qed.

(** X24: [RunVerifyCommand] uses the network only when the local
    archive cannot serve (it is missing, or its recorded checksum
    differs): only then is there a GET, and it is for the saved,
    non-empty download URL; and the package is downloaded again only
    after such a GET. *)
Theorem RunVerifyCommand_network_only_when_needed (ps : PackageState.t)
        (proxyServer : string) :
  (forall proxy url, EvGet proxy url ∈ fst (RunVerifyCommand w ps proxyServer) ->
                     must_download w ps = true
                     /\ url = PackageState.DownloadURL ps /\ url <> "")
  /\ (forall url path, EvDownload url path ∈ fst (RunVerifyCommand w ps proxyServer) ->
                       must_download w ps = true
                       /\ exists proxy, EvGet proxy url
                                        ∈ fst (RunVerifyCommand w ps proxyServer)).
Proof.
  unfold RunVerifyCommand, must_download.
  split; [intros proxy url|intros url path].
  all: repeat run_step; intros Hin; in_trace Hin.
  all: try (injection Hin as -> ->).
  all: try match goal with
           | H : (_ =? "") = false |- _ => apply String.eqb_neq in H
           end.
  all: first
         [ split_and!; [first [reflexivity | assumption]|reflexivity|assumption]
         | split; [first [reflexivity | assumption]
                  |eexists; apply list_elem_of_further, list_elem_of_here] ].
Qed.

(** X25: the verify script runs a second time only on the package
    extracted anew by [download.ExtractPkg], in the directory that
    returned, and only after the first run, on the extracted verify
    command alone, has failed. *)
Theorem RunVerifyCommand_reextracts_after_failure (ps : PackageState.t)
        (proxyServer : string) (dir : string) (res : option error) :
  EvVerify true dir res ∈ fst (RunVerifyCommand w ps proxyServer) ->
  download_ExtractPkg w (PackageState.LocalPath ps) = inr dir
  /\ exists spec e,
      PackageState.PackageSpec ps = Some spec
      /\ res = system_Verify w true dir spec
      /\ EvVerify false (trim_ext w (PackageState.LocalPath ps)) (Some e)
         ∈ fst (RunVerifyCommand w ps proxyServer)
      /\ EvExtractPkg (PackageState.LocalPath ps)
         ∈ fst (RunVerifyCommand w ps proxyServer).
Proof.
  unfold RunVerifyCommand.
  repeat run_step; intros Hin; in_trace Hin.
  all: injection Hin as -> ->.
  all: split; [reflexivity|]; eexists _, _; split; [reflexivity|].
  all: split; [symmetry; assumption|].
  all: split;
    repeat first [apply list_elem_of_here | apply list_elem_of_further].
Qed.
End RunVerifyCommand_props.
Section verify_extra_runs.
Import goolib client verify verify_more sample cases_verify.

(** X21 (witness): the theorem at a concrete input. *)
Lemma extractVerify_success_means_found_witness :
  gzip_err goo = None
  /\ exists pre name post,
      headers goo = pre ++ inr name :: post
      /\ Forall (other_entry w_verify "verify.ps1") pre
      /\ filepath_Clean w_verify name = filepath_Clean w_verify "verify.ps1"
      /\ MkdirAll w_verify "cache/p.noarch.1" = None
      /\ OpenFile w_verify (filepath_Join w_verify "cache/p.noarch.1" "verify.ps1") = None
      /\ Copy w_verify (filepath_Join w_verify "cache/p.noarch.1" "verify.ps1") = None
      /\ Close w_verify (filepath_Join w_verify "cache/p.noarch.1" "verify.ps1") = None.
Proof.
  apply (extractVerify_success_means_found w_verify goo "verify.ps1" "cache/p.noarch.1").
  reflexivity.
Defined.

(** X22 (witness): the theorem at a concrete input. *)
Lemma extractVerify_stops_at_first_match_witness :
  extractVerify w_verify goo "verify.ps1" "cache/p.noarch.1"
  = extractVerify w_verify
      (mkArchive (gzip_err goo)
         ([inr "p.pkgspec"] ++ inr "verify.ps1" :: [inl "unexpected EOF"]))
      "verify.ps1" "cache/p.noarch.1".
Proof.
  apply (extractVerify_stops_at_first_match w_verify goo [inr "p.pkgspec"] "verify.ps1"
           [inr "install.ps1"] [inl "unexpected EOF"] "verify.ps1" "cache/p.noarch.1").
  - reflexivity.
  - constructor; [|constructor]. simpl. discriminate.
  - reflexivity.
Defined.

(** X23 (witness): the theorem at a concrete input. *)
Lemma RunVerifyCommand_true_means_verified_witness :
  @None error = None
  /\ exists spec,
      PackageState.PackageSpec verified_state = Some spec
      /\ (ExecFile.Path (PkgSpec.Verify spec) = ""
          \/ exists reextracted dir,
              EvVerify reextracted dir None
              ∈ fst (RunVerifyCommand w_repaired verified_state "")).
Proof.
  apply (RunVerifyCommand_true_means_verified w_repaired verified_state "" None).
  reflexivity.
Defined.

(** X24 (witness): the theorem at a concrete input. *)
Lemma RunVerifyCommand_network_only_when_needed_witness :
  must_download w_corrupt verified_state = true
  /\ "https://host/repo/p.noarch.1.goo" = PackageState.DownloadURL verified_state
  /\ "https://host/repo/p.noarch.1.goo" <> "".
Proof.
  apply (proj1 (RunVerifyCommand_network_only_when_needed w_corrupt verified_state "")
           "" "https://host/repo/p.noarch.1.goo").
  vm_compute. apply list_elem_of_further, list_elem_of_here.
Defined.

(** X25 (witness): the theorem at a concrete input. *)
Lemma RunVerifyCommand_reextracts_after_failure_witness :
  download_ExtractPkg w_repaired (PackageState.LocalPath verified_state)
  = inr "cache/p.noarch.1"
  /\ exists spec e,
      PackageState.PackageSpec verified_state = Some spec
      /\ None = system_Verify w_repaired true "cache/p.noarch.1" spec
      /\ EvVerify false (trim_ext w_repaired (PackageState.LocalPath verified_state))
                  (Some e)
         ∈ fst (RunVerifyCommand w_repaired verified_state "")
      /\ EvExtractPkg (PackageState.LocalPath verified_state)
         ∈ fst (RunVerifyCommand w_repaired verified_state "").
Proof.
  apply (RunVerifyCommand_reextracts_after_failure w_repaired verified_state ""
           "cache/p.noarch.1" None).
  vm_compute. do 4 apply list_elem_of_further. apply list_elem_of_here.
Defined.
End verify_extra_runs.
